(** * four-keys: release classification and metrics aggregation

    A shallow embedding of [internal/core/query_releases.go] and
    [internal/cli/cli.go], together with the properties of the release
    classifier ([QueryReleases]), of the two commit-range traversals and of
    the metric aggregators that the design document states.

    Conventions.
    - A [time.Time] instant is an integer number of nanoseconds since the
      Unix epoch, of any size; a [time.Duration] is a signed 64-bit count of
      nanoseconds, kept as a [Z] with the wrap-around of [+], of the second
      count of [time.Unix] and the saturation of [Time.Sub] written out.
    - A [float64] is a primitive binary64 float, with the IEEE 754 division
      of Go.
    - A [*regexp.Regexp] is represented by its [MatchString] predicate; a nil
      pointer is [None].
    - A Go run-time panic is the [Panic] outcome of the [result] monad.
    - The [git] executable and go-git's ancestry walk are the two oracles of
      Section [Traversal]. *)

From Stdlib Require Import ZArith String Ascii List Lia Bool DecimalString.
From Stdlib Require Import PrimFloat FloatOps SpecFloat Uint63.
From stdpp Require Import base tactics option list strings.

Local Open Scope string_scope.
Local Open Scope Z_scope.

(** ** Outcomes: a value, or a run-time panic *)

Inductive result (A : Type) : Type :=
| Ok (a : A)
| Panic.
Arguments Ok {A} a.
Arguments Panic {A}.

#[global] Instance result_ret : MRet result := fun A a => Ok a.
#[global] Instance result_bind : MBind result := fun A B f m =>
  match m with
  | Ok a => f a
  | Panic => Panic
  end.

#[global] Instance result_fmap : FMap result := fun A B f m =>
  match m with
  | Ok a => Ok (f a)
  | Panic => Panic
  end.

(** Slice indexing [s[i]] with Go's bounds check. *)
Definition index {A : Type} (s : list A) (i : Z) : result A :=
  if i <? 0 then Panic
  else match s !! Z.to_nat i with
       | Some x => Ok x
       | None => Panic
       end.

(** Go's [len]. *)
Definition len {A : Type} (s : list A) : Z := Z.of_nat (length s).

(** ** Package [time] *)

Module time.

Definition Time : Type := Z.
Definition Duration : Type := Z.

Definition minDuration : Duration := - 2 ^ 63.
Definition maxDuration : Duration := 2 ^ 63 - 1.

Definition Nanosecond : Duration := 1.
Definition Second : Duration := 1000000000.
Definition Minute : Duration := 60 * Second.
Definition Hour : Duration := 60 * Minute.

(** Arithmetic on [int64]: the result of [+] wraps around. *)
Definition wrap64 (z : Z) : Z := (z + 2 ^ 63) mod 2 ^ 64 - 2 ^ 63.
Definition add64 (a b : Duration) : Duration := wrap64 (a + b).

(** [t.Sub(u)]: the difference, saturated at the ends of [Duration]. Go
    computes it from the [int64] second counts of the two instants and
    checks the result; the two agree whenever the instants are less than
    [2 ^ 63] seconds apart. *)
Definition Sub (t u : Time) : Duration :=
  if t - u <? minDuration then minDuration
  else if maxDuration <? t - u then maxDuration
  else t - u.

Definition After (t u : Time) : bool := u <? t.
Definition Before (t u : Time) : bool := t <? u.
Definition Add (t : Time) (d : Duration) : Time := t + d.

(** The seconds from January 1 of year 1 to the Unix epoch. *)
Definition unixToInternal : Z := 62135596800.

(** [time.Unix(sec, 0)]: the instant keeps [sec + unixToInternal] in an
    [int64], which wraps around for [sec] above [2 ^ 63 - 1 -
    unixToInternal]; the instant is that many seconds after year 1. *)
Definition Unix (sec : Z) : Time :=
  (wrap64 (sec + unixToInternal) - unixToInternal) * Second.

End time.

(** ** Package [strings], [strconv], [bufio] and the timestamp pattern *)

Module strings.

(** [strings.Contains(s, substr)]. *)
Fixpoint Contains (s substr : string) : bool :=
  String.prefix substr s ||
  match s with
  | EmptyString => false
  | String _ s' => Contains s' substr
  end.

End strings.

Definition isDigit (c : ascii) : bool :=
  let n := N_of_ascii c in ((48 <=? n) && (n <=? 57))%N.

Definition digitValue (c : ascii) : Z := Z.of_N (N_of_ascii c) - 48.

(** Longest prefix whose characters satisfy [p], and the rest. *)
Fixpoint span (p : ascii -> bool) (s : string) : string * string :=
  match s with
  | EmptyString => (EmptyString, EmptyString)
  | String c s' =>
      if p c then let '(a, b) := span p s' in (String c a, b)
      else (EmptyString, s)
  end.

Fixpoint allDigits (s : string) : bool :=
  match s with
  | EmptyString => true
  | String c s' => isDigit c && allDigits s'
  end.

Fixpoint decimalValue (acc : Z) (s : string) : Z :=
  match s with
  | EmptyString => acc
  | String c s' => decimalValue (10 * acc + digitValue c) s'
  end.

Module strconv.

(** [strconv.ParseInt(s, 10, 64)]: [None] is a non-nil error (syntax or
    range). *)
Definition ParseInt (s : string) : option Z :=
  let '(neg, body) :=
    match s with
    | String "+" b => (false, b)
    | String "-" b => (true, b)
    | _ => (false, s)
    end in
  match body with
  | EmptyString => None
  | _ =>
      if allDigits body then
        let v := decimalValue 0 body in
        if neg then (if v <=? 2 ^ 63 then Some (- v) else None)
        else (if v <=? 2 ^ 63 - 1 then Some v else None)
      else None
  end.

End strconv.

(** Longest prefix of a list whose elements satisfy [p]. *)
Fixpoint takeWhile {A : Type} (p : A -> bool) (l : list A) : list A :=
  match l with
  | [] => []
  | x :: l' => if p x then x :: takeWhile p l' else []
  end.

Module bufio.

Definition MaxScanTokenSize : Z := 64 * 1024.

Definition dropCR (s : string) : string :=
  match String.length s with
  | O => s
  | S n =>
      match String.get n s with
      | Some "013"%char => String.substring 0 n s
      | _ => s
      end
  end.

(** The raw lines of [data]: the text before each newline, and the
    unterminated rest when it is not empty. *)
Fixpoint rawLines (cur : string) (data : string) : list string :=
  match data with
  | EmptyString =>
      match cur with
      | EmptyString => []
      | _ => [cur]
      end
  | String c data' =>
      if Ascii.eqb c "010"%char then cur :: rawLines EmptyString data'
      else rawLines (cur ++ String c EmptyString) data'
  end.

(** The tokens a [Scanner] with the [ScanLines] split function yields on
    [data]: scanning stops at the first line that does not fit the
    scanner's buffer. *)
Definition ScanLines (data : string) : list string :=
  dropCR <$>
    takeWhile (fun l => Z.of_nat (String.length l) <? MaxScanTokenSize)
            (rawLines EmptyString data).

End bufio.

(** [regexp.MustCompile(`^[^\d]+(\d+) `).FindStringSubmatch(line)], reduced
    to its first group: a non-empty run of non-digits from the start of the
    line, a non-empty run of digits (the group), one space. [None] is the nil
    slice of a failed match. *)
Definition timestampSubmatch (line : string) : option string :=
  let '(junk, rest) := span (fun c => negb (isDigit c)) line in
  let '(digits, rest') := span isDigit rest in
  match junk, digits, rest' with
  | String _ _, String _ _, String " " _ => Some digits
  | _, _, _ => None
  end.

(** ** Data model *)

(** A [*regexp.Regexp], by its [MatchString]. *)
Definition Regexp : Type := string -> bool.

(** go-git's [object.Commit], with the fields the engine reads:
    [Hash.String()], [Committer.When] and [Message]. *)
Record Commit : Type := mkCommit {
  Hash : string;
  When : time.Time;
  Message : string;
}.

(** A tag and the commit it points at; [tag] is [tag.Name().Short()]. *)
Record ReleaseSource : Type := mkReleaseSource {
  tag : string;
  commit : Commit;
}.

(** The result attached to a release; [TimeToRestore] is a nullable
    [*time.Duration]. *)
Record ReleaseResult : Type := mkReleaseResult {
  IsSuccess : bool;
  TimeToRestore : option time.Duration;
}.

Record Release : Type := mkRelease {
  Tag : string;
  Date : time.Time;
  LeadTimeForChanges : time.Duration;
  Result : ReleaseResult;
}.

(** The timer and debug callbacks of the Go struct only observe the run and
    are left out. *)
Record Option : Type := mkOption {
  Since : time.Time;
  Until : time.Time;
  IgnorePattern : option Regexp;
  FixCommitPattern : option Regexp;
  IsLocalRepository : bool;
}.

(** Methods on [*Option]; the receiver may be nil. *)

Definition isInTimeRange (o : option Option) (t : time.Time) : bool :=
  match o with
  | None => true
  | Some o => time.After t (Since o) && time.Before t (Until o)
  end.

Definition shouldIgnore (o : option Option) (name : string) : bool :=
  match o with
  | None => false
  | Some o =>
      match IgnorePattern o with
      | None => false
      | Some re => re name
      end
  end.

Definition isFixedCommit (o : option Option) (commitMessage : string) : bool :=
  match o with
  | None => strings.Contains commitMessage "hotfix"
  | Some o =>
      match FixCommitPattern o with
      | None => strings.Contains commitMessage "hotfix"
      | Some re => re commitMessage
      end
  end.

(** The value of [--since] handed to [git log]: the literal ["1900-01-01"],
    or an instant rendered with layout ["2006-01-02T15:04:05"]. *)
Inductive sinceArg : Type :=
| SinceDefault
| SinceTime (t : time.Time).

(** ** Package [core]: commit-range traversal and the release classifier *)

Section Traversal.

(** [gitLog since hash] is the outcome of
    [exec.Command("git", "log", "--since", since, `--format="%ct %s"`,
    "--date-order", hash).Output()]: [None] when the command fails (missing
    binary, non-zero exit), the bytes of its standard output otherwise. *)
Variable gitLog : sinceArg -> string -> option string.

(** A [*git.Repository]. *)
Variable Repository : Type.

(** [traverseCommits repository from to callback] is declared in another
    file of the package and is taken as an oracle. The callback of
    [getIsRestoredAndLeadTimeForChangesByGoGit] never returns an error, so a
    call is described by the commits handed to the callback, in order, and by
    whether the returned error is non-nil. *)
Variable traverseCommits :
  Repository -> option Commit -> Commit -> list Commit * bool.

(** The body of the scanner loop: one output line. *)
Definition scanLine (opt : option Option) (acc : bool * string) (line : string)
  : bool * string :=
  let restoresPreRelease := if isFixedCommit opt line then true else fst acc in
  (restoresPreRelease, line).

Definition getIsRestoredAndLeadTimeForChangesByLocalGit
    (sources : list ReleaseSource) (i : nat) (opt : option Option)
  : result (bool * time.Duration) :=
  source ← index sources (Z.of_nat i);
  since ← (if Z.of_nat i <? len sources - 1 then
             preRelease ← index sources (Z.of_nat i + 1);
             mret (SinceTime (time.Add (When (commit preRelease)) time.Second))
           else mret SinceDefault);
  let cmd := gitLog since (Hash (commit source)) in
  let '(restoresPreRelease, lastLine) :=
    match cmd with
    | Some output => fold_left (scanLine opt) (bufio.ScanLines output) (false, "")
    | None => (false, "")
    end in
  let isRestored := restoresPreRelease in
  match cmd with
  | Some _ =>
      if negb (String.eqb lastLine "") then
        match timestampSubmatch lastLine with
        | None => Panic
        | Some unixtimeString =>
            match strconv.ParseInt unixtimeString with
            | Some unixtimeInt =>
                let lastCommitWhen := time.Unix unixtimeInt in
                mret (isRestored, time.Sub (When (commit source)) lastCommitWhen)
            | None => mret (isRestored, 0)
            end
        end
      else mret (isRestored, 0)
  | None => mret (isRestored, 0)
  end.

(** The callback handed to [traverseCommits]: one visited commit. *)
Definition visitCommit (opt : option Option) (acc : bool * option Commit) (c : Commit)
  : bool * option Commit :=
  let restoresPreRelease := if isFixedCommit opt (Message c) then true else fst acc in
  (restoresPreRelease, Some c).

Definition getIsRestoredAndLeadTimeForChangesByGoGit
    (sources : list ReleaseSource) (i : nat) (opt : option Option)
    (repository : Repository)
  : result (bool * time.Duration) :=
  source ← index sources (Z.of_nat i);
  preReleaseCommit ← (if Z.of_nat i <? len sources - 1 then
                        preRelease ← index sources (Z.of_nat i + 1);
                        mret (Some (commit preRelease))
                      else mret None);
  let '(visited, failed) := traverseCommits repository preReleaseCommit (commit source) in
  let '(restoresPreRelease, lastCommit) :=
    fold_left (visitCommit opt) visited (false, None) in
  let isRestored := restoresPreRelease in
  mret (isRestored,
        match failed, lastCommit with
        | false, Some c => time.Sub (When (commit source)) (When c)
        | _, _ => 0
        end).

(** The traversal [QueryReleases] selects for source [i]. *)
Definition traversal (sources : list ReleaseSource) (i : nat) (opt : option Option)
    (repository : Repository)
  : result (bool * time.Duration) :=
  match opt with
  | Some o =>
      if IsLocalRepository o
      then getIsRestoredAndLeadTimeForChangesByLocalGit sources i opt
      else getIsRestoredAndLeadTimeForChangesByGoGit sources i opt repository
  | None => getIsRestoredAndLeadTimeForChangesByGoGit sources i opt repository
  end.

(** The variables that live across the iterations of the loop of
    [QueryReleases]. *)
Record loopState : Type := mkLoopState {
  releases : list Release;
  nextSuccessReleaseIndex : Z;
  isRestored : bool;
}.

Definition setTimeToRestore (d : time.Duration) (r : Release) : Release :=
  mkRelease (Tag r) (Date r) (LeadTimeForChanges r)
            (mkReleaseResult (IsSuccess (Result r)) (Some d)).

(** Lines 116 to 123: the classification of the release being processed, and
    the restore time written on an earlier release. *)
Definition classify (st : loopState) : result (bool * list Release * Z) :=
  let isSuccess := negb (isRestored st) in
  if isSuccess then
    releases' ←
      (if 0 <? len (releases st) then
         newest ← index (releases st) (len (releases st) - 1);
         if negb (IsSuccess (Result newest)) then
           bound ← index (releases st) (nextSuccessReleaseIndex st);
           let timeToRestore := time.Sub (Date bound) (Date newest) in
           mret (<[Z.to_nat (nextSuccessReleaseIndex st) := setTimeToRestore timeToRestore bound]>
                   (releases st))
         else mret (releases st)
       else mret (releases st));
    mret (isSuccess, releases', len (releases st))
  else mret (isSuccess, releases st, nextSuccessReleaseIndex st).

(** One iteration of the loop over [sources]. *)
Definition QueryReleases_body
    (sources : list ReleaseSource) (opt : option Option) (repository : Repository)
    (st : loopState) (i : nat) (source : ReleaseSource) : result loopState :=
  if shouldIgnore opt (tag source) then mret st
  else if negb (isInTimeRange opt (When (commit source))) then mret st
  else
    '(isSuccess, releases', next) ← classify st;
    '(isRestored', leadTimeForChanges) ← traversal sources i opt repository;
    mret (mkLoopState
            (releases' ++ [mkRelease (tag source) (When (commit source))
                                     leadTimeForChanges
                                     (mkReleaseResult isSuccess None)])
            next isRestored').

Fixpoint QueryReleases_loop
    (sources : list ReleaseSource) (opt : option Option) (repository : Repository)
    (i : nat) (rest : list ReleaseSource) (st : loopState) : result loopState :=
  match rest with
  | [] => mret st
  | source :: rest' =>
      st' ← QueryReleases_body sources opt repository st i source;
      QueryReleases_loop sources opt repository (S i) rest' st'
  end.

(** [QueryReleases repository option]; [sources] is the value of
    [getReleaseSourcesFromTags(repository, QueryTags(repository))], the
    release sources newest first. *)
Definition QueryReleases
    (sources : list ReleaseSource) (repository : Repository) (opt : option Option)
  : result (list Release) :=
  st ← QueryReleases_loop sources opt repository 0 sources (mkLoopState [] (-1) false);
  mret (releases st).

(** *** What a run of [QueryReleases] is expected to produce *)

(** A release source passes the filters of the loop. *)
Definition passesFilters (opt : option Option) (source : ReleaseSource) : bool :=
  negb (shouldIgnore opt (tag source)) && isInTimeRange opt (When (commit source)).

(** The sources that pass the filters, each with its index in [sources];
    [i] is the index of the head of [rest]. *)
Fixpoint emittedFrom (opt : option Option) (i : nat) (rest : list ReleaseSource)
  : list (nat * ReleaseSource) :=
  match rest with
  | [] => []
  | source :: rest' =>
      if passesFilters opt source then (i, source) :: emittedFrom opt (S i) rest'
      else emittedFrom opt (S i) rest'
  end.

Definition emittedSources (opt : option Option) (sources : list ReleaseSource)
  : list (nat * ReleaseSource) :=
  emittedFrom opt 0 sources.

Definition usesLocalGit (opt : option Option) : bool :=
  match opt with
  | Some o => IsLocalRepository o
  | None => false
  end.

(** The commit of the next-older release source, when there is one. *)
Definition preReleaseCommitOf (sources : list ReleaseSource) (i : nat) : option Commit :=
  commit <$> sources !! S i.

(** The lower bound handed to [git log] for source [i]. *)
Definition sinceOf (sources : list ReleaseSource) (i : nat) : sinceArg :=
  match sources !! S i with
  | Some preRelease => SinceTime (time.Add (When (commit preRelease)) time.Second)
  | None => SinceDefault
  end.

(** The lines [git log] printed for source [i]; [None] when the command
    failed. *)
Definition logLinesOf (sources : list ReleaseSource) (i : nat) : option (list string) :=
  match sources !! i with
  | Some source => bufio.ScanLines <$> gitLog (sinceOf sources i) (Hash (commit source))
  | None => None
  end.

(** The commits go-git visited for source [i], and whether the walk failed. *)
Definition visitedOf (sources : list ReleaseSource) (i : nat) (repository : Repository)
  : list Commit * bool :=
  match sources !! i with
  | Some source => traverseCommits repository (preReleaseCommitOf sources i) (commit source)
  | None => ([], true)
  end.

(** The fix-detection signal of the traversal of source [i]: something the
    traversal met matches the fix-commit pattern. *)
Definition fixCommitFound (sources : list ReleaseSource) (i : nat) (opt : option Option)
    (repository : Repository) : bool :=
  if usesLocalGit opt then
    match logLinesOf sources i with
    | Some lines => existsb (isFixedCommit opt) lines
    | None => false
    end
  else existsb (fun c => isFixedCommit opt (Message c)) (fst (visitedOf sources i repository)).

(** The committer time of the last thing the traversal of source [i] met,
    in a successful traversal that met something whose time can be read. *)
Definition lastCommitWhenOf (sources : list ReleaseSource) (i : nat) (opt : option Option)
    (repository : Repository) : option time.Time :=
  if usesLocalGit opt then
    lines ← logLinesOf sources i;
    lastLine ← last lines;
    unixtimeString ← timestampSubmatch lastLine;
    time.Unix <$> strconv.ParseInt unixtimeString
  else
    let '(visited, failed) := visitedOf sources i repository in
    if failed then None else When <$> last visited.

(** The lead time the traversal of source [i] reports. *)
Definition leadTimeOf (sources : list ReleaseSource) (i : nat) (opt : option Option)
    (repository : Repository) : time.Duration :=
  match sources !! i, lastCommitWhenOf sources i opt repository with
  | Some source, Some lastCommitWhen => time.Sub (When (commit source)) lastCommitWhen
  | _, _ => 0
  end.

(** The releases of the emitted sources [es], newest first, before any
    restore time is written: [newer] is the signal of the traversal of the
    next-newer emitted source. *)
Fixpoint classified (sources : list ReleaseSource) (opt : option Option)
    (repository : Repository) (newer : bool) (es : list (nat * ReleaseSource))
  : list Release :=
  match es with
  | [] => []
  | (i, source) :: es' =>
      mkRelease (tag source) (When (commit source))
                (leadTimeOf sources i opt repository)
                (mkReleaseResult (negb newer) None)
      :: classified sources opt repository (fixCommitFound sources i opt repository) es'
  end.

End Traversal.

(** ** Conversions between [int] and [float64] *)

(** [float64(z)] for an [int] or [int64] [z]: the nearest double, ties to
    even. *)
Definition float64_of_int (z : Z) : float :=
  if z =? - 2 ^ 63 then (- 9223372036854775808)%float
  else if z <? 0 then PrimFloat.opp (PrimFloat.of_uint63 (Uint63.of_Z (- z)))
  else PrimFloat.of_uint63 (Uint63.of_Z z).

(** [int(f)] for a [float64] [f]: the fraction is discarded. Go leaves the
    conversion of NaN, of an infinity and of a value outside [int]
    implementation-defined; they are given the amd64 outcome. *)
Definition int_of_float64 (f : float) : Z :=
  match Prim2SF f with
  | S754_zero _ => 0
  | S754_finite s m e =>
      let mag := if 0 <=? e then Z.pos m * 2 ^ e
                 else Z.quot (Z.pos m) (2 ^ (- e)) in
      let v := if s then - mag else mag in
      if (v <? - 2 ^ 63) || (2 ^ 63 - 1 <? v) then - 2 ^ 63 else v
  | S754_infinity _ => - 2 ^ 63
  | S754_nan => - 2 ^ 63
  end.

(** [d.Hours()]. *)
Definition Hours (d : time.Duration) : float :=
  let hour := Z.quot d time.Hour in
  let nsec := Z.rem d time.Hour in
  (float64_of_int hour + float64_of_int nsec / 3600000000000)%float.

(** ** Package [cli]: the deployment frequency of [defaultAction] *)

Definition daysCount (o : Option) : Z :=
  let duration := time.Sub (Until o) (Since o) in
  int_of_float64 (Hours duration / 24)%float.

Definition deploymentFrequency (o : Option) (releases : list Release) : float :=
  let releasesCount := len releases in
  (float64_of_int releasesCount / float64_of_int (daysCount o))%float.

(** ** Package [cli]: the aggregates over the classified releases *)

Definition getMeanLeadTimeForChanges (release : list Release) : time.Duration :=
  if len release =? 0 then 0
  else
    let sum := fold_left (fun sum r => time.add64 (LeadTimeForChanges r) sum) release 0 in
    Z.quot sum (len release).

(** The variables of the loop of [getTimeToRestoreServices]. *)
Record restoreState : Type := mkRestoreState {
  sum : time.Duration;
  countOfRestoreService : Z;
  failedReleaseIndex : Z;
}.

(** One iteration, at index [i]. *)
Definition getTimeToRestoreServices_body
    (releases : list Release) (st : restoreState) (i : Z) : result restoreState :=
  release ← index releases i;
  if negb (IsSuccess (Result release)) then
    if failedReleaseIndex st <? 0
    then mret (mkRestoreState (sum st) (countOfRestoreService st) i)
    else mret st
  else if IsSuccess (Result release) && (failedReleaseIndex st <? 0) then mret st
  else
    failed ← index releases (failedReleaseIndex st);
    mret (mkRestoreState
            (time.add64 (sum st) (time.Sub (Date release) (Date failed)))
            (countOfRestoreService st + 1)
            (-1)).

(** [for i := n - 1; i >= 0; i--], with [n] iterations left. *)
Fixpoint getTimeToRestoreServices_loop
    (releases : list Release) (n : nat) (st : restoreState) : result restoreState :=
  match n with
  | O => mret st
  | S i =>
      st' ← getTimeToRestoreServices_body releases st (Z.of_nat i);
      getTimeToRestoreServices_loop releases i st'
  end.

Definition getTimeToRestoreServices (releases : list Release) : result time.Duration :=
  st ← getTimeToRestoreServices_loop releases (length releases) (mkRestoreState 0 0 (-1));
  if countOfRestoreService st =? 0 then mret (sum st)
  else mret (Z.quot (sum st) (countOfRestoreService st)).

Definition getChangeFailureRate (releases : list Release) : float :=
  if len releases =? 0 then 0%float
  else
    let sumOfFailure :=
      fold_left (fun n r => if negb (IsSuccess (Result r)) then n + 1 else n) releases 0 in
    (float64_of_int sumOfFailure / float64_of_int (len releases))%float.

(** ** A repository with a linear history *)

(** A linear history lists its commits newest first; the parent of a commit
    is the next one, and the last commit is the root. *)
Definition History : Type := list Commit.

(** The part of the history reachable from the commit named [hash], that
    commit first; [None] when the history has no such commit. *)
Fixpoint reachableFrom (hash : string) (h : History) : option (list Commit) :=
  match h with
  | [] => None
  | c :: h' => if String.eqb (Hash c) hash then Some h else reachableFrom hash h'
  end.

Definition isCommit (boundary : option Commit) (c : Commit) : bool :=
  match boundary with
  | Some p => String.eqb (Hash c) (Hash p)
  | None => false
  end.

(** Modelled from the spec: [traverseCommits], whose Go source is missing.
    The in-process strategy "walk[s] the commit ancestry graph from C
    backward, stopping at P (exclusive) or the traversal root"; a root commit
    the repository does not hold is an error. *)
Definition linearTraverseCommits
    (h : History) (preReleaseCommit : option Commit) (c : Commit) : list Commit * bool :=
  match reachableFrom (Hash c) h with
  | Some cs => (takeWhile (fun x => negb (isCommit preReleaseCommit x)) cs, false)
  | None => ([], true)
  end.

(** The subject of a commit message: its first line. *)
Definition subject (message : string) : string :=
  fst (span (fun c => negb (Ascii.eqb c "010"%char)) message).

Definition decimal (z : Z) : string :=
  DecimalString.NilZero.string_of_int (Z.to_int z).

Definition quote : string := String "034"%char EmptyString.
Definition newline : string := String "010"%char EmptyString.

(** One line of [git log --format="%ct %s"]; the quotes of the format are
    part of the output. *)
Definition logLine (c : Commit) : string :=
  quote ++ decimal (Z.div (When c) time.Second) ++ " " ++ subject (Message c) ++ quote.

Definition notBefore (since : sinceArg) (c : Commit) : bool :=
  match since with
  | SinceDefault => (-2208988800) * time.Second <=? When c
  | SinceTime t => t <=? When c
  end.

(** Modelled from the spec: the output of the native tool, [git log], which
    is no part of the repository. Its log is "bounded by P's timestamp + 1
    time-unit as a lower bound and C as the traversal root", and yields
    "ordered lines of <unixTime> <subject>", one per commit, each ended by a
    newline; an unknown root makes the tool fail. *)
Definition linearGitLog (h : History) (since : sinceArg) (hash : string) : option string :=
  match reachableFrom hash h with
  | Some cs =>
      Some (fold_right (fun c out => logLine c ++ newline ++ out) ""
                       (filter (fun c => Is_true (notBefore since c)) cs))
  | None => None
  end.

(** A release without its restore time. *)
Definition withoutTimeToRestore (r : Release) : Release :=
  mkRelease (Tag r) (Date r) (LeadTimeForChanges r)
            (mkReleaseResult (IsSuccess (Result r)) None).

(** ** Reference definitions for the aggregate restore time *)

(** The closed failure-to-success transitions met when the releases are
    scanned from the oldest to the newest: [pending] is the oldest failure of
    the run being scanned, and each success that follows a run contributes
    its date minus the date of that failure. *)
Fixpoint restoreGaps (pending : option Release) (oldestFirst : list Release)
  : list time.Duration :=
  match oldestFirst with
  | [] => []
  | r :: later =>
      if IsSuccess (Result r) then
        match pending with
        | Some failed => time.Sub (Date r) (Date failed) :: restoreGaps None later
        | None => restoreGaps None later
        end
      else
        match pending with
        | Some failed => restoreGaps (Some failed) later
        | None => restoreGaps (Some r) later
        end
  end.

(** [releases] is newest first, as [QueryReleases] returns it. *)
Definition closedTransitions (releases : list Release) : list time.Duration :=
  restoreGaps None (rev releases).

Definition total (ds : list Z) : Z := fold_right Z.add 0 ds.

(** The mean of a list of durations, a duration itself: the quotient is
    truncated, as every integer quotient of Go is; the mean of no duration
    is 0. *)
Definition mean (ds : list time.Duration) : time.Duration :=
  match ds with
  | [] => 0
  | _ => Z.quot (total ds) (len ds)
  end.

(** The same with the sum accumulated in an [int64]. *)
Definition mean64 (ds : list time.Duration) : time.Duration :=
  match ds with
  | [] => 0
  | _ => Z.quot (time.wrap64 (total ds)) (len ds)
  end.

(** The timestamp read off a log line, when the line has one that fits an
    [int64]. *)
Definition timestampOf (line : string) : option Z :=
  timestampSubmatch line ≫= strconv.ParseInt.

(** The pending failure a state of the loop of [getTimeToRestoreServices]
    stands for: the release at [failedReleaseIndex], if that index is set. *)
Definition pendingFailure (releases : list Release) (st : restoreState)
    (pending : option Release) : Prop :=
  (failedReleaseIndex st < 0 /\ pending = None) \/
  (0 <= failedReleaseIndex st /\
   exists failed,
     releases !! Z.to_nat (failedReleaseIndex st) = Some failed /\ pending = Some failed).

(** In the loop of [QueryReleases], the index of the newest success is a
    valid index as soon as a release has been emitted, and the first release
    is emitted with [isRestored = false]. *)
Definition indexInvariant (st : loopState) : Prop :=
  (releases st = [] /\ isRestored st = false) \/
  (0 <= nextSuccessReleaseIndex st < len (releases st)).

(** The timestamp of the last line [git log] printed for source [i]. *)
Definition lastTimestampOf (gitLog : sinceArg -> string -> option string)
    (sources : list ReleaseSource) (i : nat) : option Z :=
  lines ← logLinesOf gitLog sources i;
  lastLine ← last lines;
  timestampOf lastLine.

(** The failure policy of the native-tool traversal as the design document
    states it: when the tool fails, or no timestamp can be read off its
    output, the traversal reports no fix and a lead time of zero. *)
Definition absorbsFailure (gitLog : sinceArg -> string -> option string)
    (sources : list ReleaseSource) (i : nat) (opt : option Option) : Prop :=
  lastTimestampOf gitLog sources i = None ->
  getIsRestoredAndLeadTimeForChangesByLocalGit gitLog sources i opt = Ok (false, 0).

(** The lead time of the oldest release source as the design document states
    it: a release with no next-older counterpart has a lead time of zero. *)
Definition zeroLeadTimeWithoutOlderRelease
    (gitLog : sinceArg -> string -> option string) (Repository : Type)
    (traverseCommits : Repository -> option Commit -> Commit -> list Commit * bool)
    (sources : list ReleaseSource) (repository : Repository) (opt : option Option)
  : Prop :=
  forall rs k r i source,
    QueryReleases gitLog Repository traverseCommits sources repository opt = Ok rs ->
    rs !! k = Some r ->
    emittedSources opt sources !! k = Some (i, source) ->
    sources !! S i = None ->
    LeadTimeForChanges r = 0.

(** The restore times [QueryReleases] wrote on the releases. *)
Definition recordedRestoreTimes (releases : list Release) : list time.Duration :=
  omap (fun r => TimeToRestore (Result r)) releases.

(** The classification of each release, and the date of each release. *)
Definition successes (releases : list Release) : list bool :=
  (fun r => IsSuccess (Result r)) <$> releases.
Definition dates (releases : list Release) : list time.Time :=
  Date <$> releases.

(** In a newest-first list of classifications, the failures at [j+1 .. m]
    are a run bounded by the success at [j] on the newer side and closed by
    the success at [m+1] on the older side. *)
Definition closesStreak (ss : list bool) (j m : nat) : Prop :=
  (j < m)%nat /\
  ss !! j = Some true /\
  (forall k, (j < k <= m)%nat -> ss !! k = Some false) /\
  ss !! S m = Some true.

(** What the loop of [QueryReleases] maintains about the restore times: the
    release at [nextSuccessReleaseIndex] is the newest-first last success,
    and a restore time sits exactly on the successes whose failure run has
    been closed, with the date of the oldest failure of the run as bound. *)
Definition restoreInvariant (st : loopState) : Prop :=
  ((releases st = [] /\ isRestored st = false) \/
   (exists n,
      nextSuccessReleaseIndex st = Z.of_nat n /\
      successes (releases st) !! n = Some true /\
      forall k, (n < k < length (releases st))%nat ->
                successes (releases st) !! k = Some false)) /\
  (forall j r d,
     releases st !! j = Some r ->
     (TimeToRestore (Result r) = Some d <->
      exists m oldest,
        closesStreak (successes (releases st)) j m /\
        dates (releases st) !! m = Some oldest /\
        d = time.Sub (Date r) oldest)).

(** ** Scenarios *)

(** Two releases; the newer one ships a fix, announced in the subject of its
    commit. *)
Definition fixCommit : Commit :=
  mkCommit "c2" (2000 * time.Second) "hotfix: crash on start".
Definition firstCommit : Commit :=
  mkCommit "c1" (1000 * time.Second) "release v1".
Definition fixHistory : History := [fixCommit; firstCommit].
Definition fixSources : list ReleaseSource :=
  [mkReleaseSource "v2" fixCommit; mkReleaseSource "v1" firstCommit].

(** The scenario of the design document: [v3] at 30 seconds, [v2] at 20
    seconds with a fix commit in its range, [v1] at 10 seconds. *)
Definition thirdCommit : Commit := mkCommit "c3" (30 * time.Second) "release v3".
Definition secondCommit : Commit :=
  mkCommit "c2" (20 * time.Second) "hotfix: crash on start".
Definition oldestCommit : Commit := mkCommit "c1" (10 * time.Second) "release v1".
Definition threeHistory : History := [thirdCommit; secondCommit; oldestCommit].
Definition threeSources : list ReleaseSource :=
  [mkReleaseSource "v3" thirdCommit; mkReleaseSource "v2" secondCommit;
   mkReleaseSource "v1" oldestCommit].

(** The same, with the fix announced in the body of the commit message. *)
Definition bodyFixCommit : Commit :=
  mkCommit "c2" (2000 * time.Second)
           ("release v2" ++ newline ++ newline ++ "hotfix: crash on start").
Definition bodyFixHistory : History := [bodyFixCommit; firstCommit].
Definition bodyFixSources : list ReleaseSource :=
  [mkReleaseSource "v2" bodyFixCommit; mkReleaseSource "v1" firstCommit].

(** One release, made 1000 seconds after the first commit of the history. *)
Definition rootCommit : Commit :=
  mkCommit "c0" (1000 * time.Second) "initial commit".
Definition onlyReleaseCommit : Commit :=
  mkCommit "c1" (2000 * time.Second) "release v1".
Definition rootedHistory : History := [onlyReleaseCommit; rootCommit].
Definition rootedSources : list ReleaseSource :=
  [mkReleaseSource "v1" onlyReleaseCommit].

(** A window of 1000 to 3000 seconds after the epoch, and the options that
    select each traversal. *)
Definition windowOption (local : bool) : Option :=
  mkOption (1000 * time.Second) (3000 * time.Second) None None local.
Definition wideOption (local : bool) : Option :=
  mkOption 0 (3000 * time.Second) None None local.

(** A log whose only line carries a timestamp of twenty digits. *)
Definition overlongLog : string :=
  quote ++ "99999999999999999999 hotfix" ++ quote ++ newline.
Definition overlongGitLog (since : sinceArg) (hash : string) : option string :=
  Some overlongLog.

(** A tool that cannot be run. *)
Definition failingGitLog (since : sinceArg) (hash : string) : option string := None.

(** Three classified releases, newest first: a success, the failure it
    restored, and an older success. *)
Definition restoredReleases : list Release :=
  [mkRelease "v3" (3000 * time.Second) 0 (mkReleaseResult true None);
   mkRelease "v2" (2000 * time.Second) 0 (mkReleaseResult false None);
   mkRelease "v1" (1000 * time.Second) 0 (mkReleaseResult true None)].

(** The scenario of a closed failure run: [v3] at 30 seconds ships a fix,
    [v2] at 20 seconds is the release it fixes, [v1] at 10 seconds is
    sound. *)
Definition closingFixCommit : Commit :=
  mkCommit "c3" (30 * time.Second) "hotfix: crash on start".
Definition brokenCommit : Commit := mkCommit "c2" (20 * time.Second) "release v2".
Definition soundCommit : Commit := mkCommit "c1" (10 * time.Second) "release v1".
Definition closedHistory : History := [closingFixCommit; brokenCommit; soundCommit].
Definition closedSources : list ReleaseSource :=
  [mkReleaseSource "v3" closingFixCommit; mkReleaseSource "v2" brokenCommit;
   mkReleaseSource "v1" soundCommit].
Definition closedReleases : list Release :=
  [mkRelease "v3" (30 * time.Second) 0 (mkReleaseResult true (Some (10 * time.Second)));
   mkRelease "v2" (20 * time.Second) 0 (mkReleaseResult false None);
   mkRelease "v1" (10 * time.Second) 0 (mkReleaseResult true None)].

(** An option that ignores every tag. *)
Definition ignoreAllOption : Option :=
  mkOption 0 (3000 * time.Second) (Some (fun _ => true)) None true.

(** The day count [defaultAction] computes for a window of [d] whole
    days. *)
Definition wholeDayCount (d : Z) : Z :=
  int_of_float64 (PrimFloat.div (Hours (d * (24 * time.Hour))) 24%float).

(** The day count is exact on the [n] windows of [d], [d + 1], ... whole
    days. *)
Fixpoint wholeDaysExact (n : nat) (d : Z) : bool :=
  match n with
  | O => true
  | S n' => (wholeDayCount d =? d) && wholeDaysExact n' (d + 1)
  end.

(** The oldest of a list of instants. *)
Fixpoint oldestTime (ts : list time.Time) : option time.Time :=
  match ts with
  | [] => None
  | t :: ts' =>
      match oldestTime ts' with
      | Some oldest => Some (Z.min t oldest)
      | None => Some t
      end
  end.

(** The instants come newest first: none is after the one before it. *)
Fixpoint newestFirst (ts : list time.Time) : bool :=
  match ts with
  | t :: ((t' :: _) as ts') => (t' <=? t) && newestFirst ts'
  | _ => true
  end.

(** The committer times of the commits the traversal of source [i] reports,
    in the order of the report: the commits visited by a walk that returned
    no error, or the timestamps of the lines of a tool that ran. [None] when
    the walk or the tool failed, or when a line carries no timestamp that
    can be read. *)
Definition reportedTimes (gitLog : sinceArg -> string -> option string)
    (Repository : Type)
    (traverseCommits : Repository -> option Commit -> Commit -> list Commit * bool)
    (sources : list ReleaseSource) (i : nat) (opt : option Option)
    (repository : Repository) : option (list time.Time) :=
  if usesLocalGit opt then
    lines ← logLinesOf gitLog sources i;
    mapM (fun line => time.Unix <$> timestampOf line) lines
  else
    let '(visited, failed) := visitedOf Repository traverseCommits sources i repository in
    if failed then None else Some (When <$> visited).

(** The traversal of source [i] failed: the tool could not be run, or the
    walk returned an error. *)
Definition traversalFailed (gitLog : sinceArg -> string -> option string)
    (Repository : Type)
    (traverseCommits : Repository -> option Commit -> Commit -> list Commit * bool)
    (sources : list ReleaseSource) (i : nat) (opt : option Option)
    (repository : Repository) : bool :=
  if usesLocalGit opt then
    match logLinesOf gitLog sources i with
    | Some _ => false
    | None => true
    end
  else snd (visitedOf Repository traverseCommits sources i repository).

(** A release at 2000 seconds on a history whose committer times do not
    follow the ancestry: the parent of the release commit is dated 500
    seconds, and its own parent, the root, 1500 seconds. *)
Definition amendedReleaseCommit : Commit :=
  mkCommit "c2" (2000 * time.Second) "release v1".
Definition backdatedCommit : Commit := mkCommit "c1" (500 * time.Second) "import".
Definition lateRootCommit : Commit := mkCommit "c0" (1500 * time.Second) "initial commit".
Definition unorderedHistory : History :=
  [amendedReleaseCommit; backdatedCommit; lateRootCommit].
Definition unorderedSources : list ReleaseSource :=
  [mkReleaseSource "v1" amendedReleaseCommit].

(** * Properties *)

(** ** Arithmetic of [int64] and slice indexing *)

Lemma wrap64_small (z : Z) :
  time.minDuration <= z <= time.maxDuration -> time.wrap64 z = z.
Proof.
  unfold time.wrap64, time.minDuration, time.maxDuration. intros Hz.
  rewrite Z.mod_small; lia.
Qed.

Lemma wrap64_add_l (a b : Z) : time.wrap64 (time.wrap64 a + b) = time.wrap64 (a + b).
Proof.
  unfold time.wrap64.
  replace ((a + 2 ^ 63) mod 2 ^ 64 - 2 ^ 63 + b + 2 ^ 63)
    with ((a + 2 ^ 63) mod 2 ^ 64 + b) by lia.
  rewrite Zplus_mod_idemp_l. f_equal. f_equal. lia.
Qed.

Lemma fold_add64 (ds : list Z) (a : Z) :
  fold_left time.add64 ds (time.wrap64 a) = time.wrap64 (a + total ds).
Proof.
  revert a. induction ds as [|d ds IH]; intros a; simpl.
  - f_equal. lia.
  - unfold time.add64 at 2. rewrite wrap64_add_l, IH. f_equal. lia.
Qed.

Lemma index_lookup {A : Type} (s : list A) (i : nat) (x : A) :
  s !! i = Some x -> index s (Z.of_nat i) = Ok x.
Proof.
  intros H. unfold index.
  destruct (Z.ltb_spec (Z.of_nat i) 0) as [?|_]; [lia|].
  by rewrite Nat2Z.id, H.
Qed.

Lemma index_Ok {A : Type} (s : list A) (i : Z) (x : A) :
  index s i = Ok x -> 0 <= i /\ s !! Z.to_nat i = Some x.
Proof.
  unfold index. destruct (Z.ltb_spec i 0); [discriminate|].
  destruct (s !! Z.to_nat i) eqn:E; [|discriminate].
  intros [= ->]. split; [lia|done].
Qed.

Lemma index_lookup_Z {A : Type} (s : list A) (i : Z) (x : A) :
  0 <= i -> s !! Z.to_nat i = Some x -> index s i = Ok x.
Proof.
  intros Hi H. rewrite <- (Z2Nat.id i) by done. by apply index_lookup.
Qed.

(** ** The aggregate restore time *)

Lemma getTimeToRestoreServices_loop_gaps (releases : list Release) (n : nat) :
  forall (st : restoreState) (pending : option Release),
    (n <= length releases)%nat ->
    pendingFailure releases st pending ->
    exists st',
      getTimeToRestoreServices_loop releases n st = Ok st' /\
      sum st' = fold_left time.add64 (restoreGaps pending (rev (take n releases))) (sum st) /\
      countOfRestoreService st' =
        countOfRestoreService st + len (restoreGaps pending (rev (take n releases))).
Proof.
  induction n as [|i IH]; intros st pending Hn Hp.
  - exists st. rewrite take_0. simpl. unfold len. simpl. split; [done|]. split; [done|lia].
  - destruct (lookup_lt_is_Some_2 releases i) as [r Hr]; [lia|].
    rewrite (take_S_r _ _ _ Hr), rev_app_distr. simpl.
    unfold getTimeToRestoreServices_body.
    rewrite (index_lookup _ _ _ Hr). simpl.
    destruct (IsSuccess (Result r)) eqn:Hs; simpl.
    + destruct Hp as [[Hneg ->]|[Hpos (failed & Hf & ->)]].
      * destruct (Z.ltb_spec (failedReleaseIndex st) 0); [|lia].
        simpl. apply IH; [lia|]. left. done.
      * destruct (Z.ltb_spec (failedReleaseIndex st) 0); [lia|].
        simpl. rewrite (index_lookup_Z _ _ _ Hpos Hf). simpl.
        edestruct (IH (mkRestoreState
            (time.add64 (sum st) (time.Sub (Date r) (Date failed)))
            (countOfRestoreService st + 1) (-1)) None) as (st' & H1 & H2 & H3);
          [lia|left; simpl; split; [lia|done]|].
        exists st'. split; [done|]. simpl in *. split; [done|].
        rewrite H3. unfold len. simpl. lia.
    + destruct Hp as [[Hneg ->]|[Hpos (failed & Hf & ->)]].
      * destruct (Z.ltb_spec (failedReleaseIndex st) 0); [|lia].
        simpl.
        edestruct (IH (mkRestoreState (sum st) (countOfRestoreService st) (Z.of_nat i)) (Some r))
          as (st' & H1 & H2 & H3); [lia| |].
        { right. simpl. split; [lia|]. exists r. by rewrite Nat2Z.id. }
        exists st'. done.
      * destruct (Z.ltb_spec (failedReleaseIndex st) 0); [lia|].
        simpl. apply IH; [lia|]. right. split; [done|]. by exists failed.
Qed.

Lemma getTimeToRestoreServices_mean64 (releases : list Release) :
  getTimeToRestoreServices releases = Ok (mean64 (closedTransitions releases)).
Proof.
  unfold getTimeToRestoreServices.
  destruct (getTimeToRestoreServices_loop_gaps releases (length releases)
              (mkRestoreState 0 0 (-1)) None) as (st & H1 & H2 & H3).
  { lia. } { left. simpl. split; [lia|done]. }
  rewrite H1. simpl in *. rewrite firstn_all in H2, H3.
  fold (closedTransitions releases) in H2, H3.
  change 0 with (time.wrap64 0) in H2 at 1. rewrite fold_add64 in H2.
  rewrite H2, H3. unfold mean64.
  destruct (closedTransitions releases) as [|d ds] eqn:E.
  - reflexivity.
  - unfold len at 1. simpl length.
    destruct (Z.eqb_spec (0 + Z.of_nat (S (length ds))) 0); [lia|].
    simpl. unfold mret, result_ret. f_equal.
Qed.

(** ** The two traversals *)

Lemma fold_scanLine (opt : option Option) (lines : list string) (b : bool) (s : string) :
  fold_left (scanLine opt) lines (b, s) =
  (b || existsb (isFixedCommit opt) lines, default s (last lines)).
Proof.
  revert b s. induction lines as [|l lines IH]; intros b s.
  - simpl. by rewrite orb_false_r.
  - simpl fold_left. unfold scanLine at 2. simpl fst. rewrite IH, last_cons. simpl.
    f_equal.
    + destruct (isFixedCommit opt l), b; simpl; try done.
    + by destruct (last lines).
Qed.

Lemma fold_visitCommit (opt : option Option) (cs : list Commit) (b : bool) (o : option Commit) :
  fold_left (visitCommit opt) cs (b, o) =
  (b || existsb (fun c => isFixedCommit opt (Message c)) cs,
   match last cs with Some c => Some c | None => o end).
Proof.
  revert b o. induction cs as [|c cs IH]; intros b o.
  - simpl. by rewrite orb_false_r.
  - simpl fold_left. unfold visitCommit at 2. simpl fst. rewrite IH, last_cons. simpl.
    f_equal.
    + destruct (isFixedCommit opt (Message c)), b; simpl; try done.
    + by destruct (last cs).
Qed.

Section TraversalFacts.

Variable gitLog : sinceArg -> string -> option string.
Variable Repository : Type.
Variable traverseCommits : Repository -> option Commit -> Commit -> list Commit * bool.

Lemma lookup_succ_bound (sources : list ReleaseSource) (i : nat) :
  (Z.of_nat i <? len sources - 1) =
  match sources !! S i with Some _ => true | None => false end.
Proof.
  unfold len. destruct (sources !! S i) eqn:E.
  - apply lookup_lt_Some in E. apply Z.ltb_lt. lia.
  - apply lookup_ge_None in E. apply Z.ltb_ge. lia.
Qed.

Lemma ByGoGit_eq (sources : list ReleaseSource) (i : nat) (opt : option Option)
    (repository : Repository) (source : ReleaseSource) :
  sources !! i = Some source ->
  getIsRestoredAndLeadTimeForChangesByGoGit Repository traverseCommits sources i opt repository =
  Ok (existsb (fun c => isFixedCommit opt (Message c))
        (fst (traverseCommits repository (preReleaseCommitOf sources i) (commit source))),
      match traverseCommits repository (preReleaseCommitOf sources i) (commit source) with
      | (visited, false) =>
          match last visited with
          | Some c => time.Sub (When (commit source)) (When c)
          | None => 0
          end
      | (_, true) => 0
      end).
Proof.
  intros Hi. unfold getIsRestoredAndLeadTimeForChangesByGoGit, preReleaseCommitOf.
  rewrite (index_lookup _ _ _ Hi). simpl.
  rewrite lookup_succ_bound.
  replace (Z.of_nat i + 1) with (Z.of_nat (S i)) by lia.
  destruct (sources !! S i) as [pre|] eqn:Hpre.
  - rewrite (index_lookup _ _ _ Hpre). simpl.
    destruct (traverseCommits repository (Some (commit pre)) (commit source)) as [visited failed].
    rewrite fold_visitCommit. simpl. destruct failed, (last visited); done.
  - simpl.
    destruct (traverseCommits repository None (commit source)) as [visited failed].
    rewrite fold_visitCommit. simpl. destruct failed, (last visited); done.
Qed.

Lemma ByLocalGit_eq (sources : list ReleaseSource) (i : nat) (opt : option Option)
    (source : ReleaseSource) :
  sources !! i = Some source ->
  getIsRestoredAndLeadTimeForChangesByLocalGit gitLog sources i opt =
  match gitLog (sinceOf sources i) (Hash (commit source)) with
  | None => Ok (false, 0)
  | Some output =>
      let lines := bufio.ScanLines output in
      let lastLine := default "" (last lines) in
      if String.eqb lastLine "" then Ok (existsb (isFixedCommit opt) lines, 0)
      else
        match timestampSubmatch lastLine with
        | None => Panic
        | Some unixtimeString =>
            Ok (existsb (isFixedCommit opt) lines,
                match strconv.ParseInt unixtimeString with
                | Some unixtimeInt =>
                    time.Sub (When (commit source)) (time.Unix unixtimeInt)
                | None => 0
                end)
        end
  end.
Proof.
  intros Hi. unfold getIsRestoredAndLeadTimeForChangesByLocalGit, sinceOf.
  rewrite (index_lookup _ _ _ Hi). simpl.
  rewrite lookup_succ_bound.
  replace (Z.of_nat i + 1) with (Z.of_nat (S i)) by lia.
  destruct (sources !! S i) as [pre|] eqn:Hpre.
  - rewrite (index_lookup _ _ _ Hpre). simpl.
    destruct (gitLog _ (Hash (commit source))) as [output|]; [|done].
    rewrite fold_scanLine. simpl.
    destruct (String.eqb (default "" (last (bufio.ScanLines output))) ""); simpl; [done|].
    destruct (timestampSubmatch _); [|done].
    destruct (strconv.ParseInt _); done.
  - simpl.
    destruct (gitLog _ (Hash (commit source))) as [output|]; [|done].
    rewrite fold_scanLine. simpl.
    destruct (String.eqb (default "" (last (bufio.ScanLines output))) ""); simpl; [done|].
    destruct (timestampSubmatch _); [|done].
    destruct (strconv.ParseInt _); done.
Qed.


Lemma index_None {A : Type} (s : list A) (i : nat) :
  s !! i = None -> index s (Z.of_nat i) = Panic.
Proof.
  intros H. unfold index.
  destruct (Z.ltb_spec (Z.of_nat i) 0); [done|]. by rewrite Nat2Z.id, H.
Qed.

Local Abbreviation traversal' := (traversal gitLog Repository traverseCommits).
Local Abbreviation fixCommitFound' := (fixCommitFound gitLog Repository traverseCommits).
Local Abbreviation leadTimeOf' := (leadTimeOf gitLog Repository traverseCommits).
Local Abbreviation QueryReleases_loop' := (QueryReleases_loop gitLog Repository traverseCommits).
Local Abbreviation QueryReleases_body' := (QueryReleases_body gitLog Repository traverseCommits).
Local Abbreviation QueryReleases' := (QueryReleases gitLog Repository traverseCommits).
Local Abbreviation classified' := (classified gitLog Repository traverseCommits).

Lemma traversal_Ok (sources : list ReleaseSource) (i : nat) (opt : option Option)
    (repository : Repository) (signal : bool) (leadTime : time.Duration) :
  traversal' sources i opt repository = Ok (signal, leadTime) ->
  signal = fixCommitFound' sources i opt repository /\
  leadTime = leadTimeOf' sources i opt repository.
Proof.
  destruct (sources !! i) as [source|] eqn:Hi.
  - unfold traversal, fixCommitFound, leadTimeOf, lastCommitWhenOf, logLinesOf, visitedOf.
    rewrite Hi.
    assert (Hlocal :
      getIsRestoredAndLeadTimeForChangesByLocalGit gitLog sources i opt = Ok (signal, leadTime) ->
      signal = match bufio.ScanLines <$> gitLog (sinceOf sources i) (Hash (commit source)) with
               | Some lines => existsb (isFixedCommit opt) lines
               | None => false
               end /\
      leadTime = match (bufio.ScanLines <$> gitLog (sinceOf sources i) (Hash (commit source)))
                         ≫= (fun lines => last lines ≫= fun lastLine =>
                               timestampSubmatch lastLine ≫= fun unixtimeString =>
                                 time.Unix <$> strconv.ParseInt unixtimeString) with
                 | Some lastCommitWhen => time.Sub (When (commit source)) lastCommitWhen
                 | None => 0
                 end).
    { rewrite (ByLocalGit_eq _ _ _ _ Hi).
      destruct (gitLog _ _) as [output|]; simpl; [|by intros [= <- <-]].
      destruct (last (bufio.ScanLines output)) as [lastLine|] eqn:Hlast; simpl.
      - destruct (String.eqb_spec lastLine "") as [->|Hne].
        + by intros [= <- <-].
        + destruct (timestampSubmatch lastLine); [|done].
          intros [= <- <-]. split; [done|]. simpl.
          by destruct (strconv.ParseInt _).
      - by intros [= <- <-]. }
    assert (Hgogit :
      getIsRestoredAndLeadTimeForChangesByGoGit Repository traverseCommits sources i opt repository
        = Ok (signal, leadTime) ->
      signal = existsb (fun c => isFixedCommit opt (Message c))
                 (fst (traverseCommits repository (preReleaseCommitOf sources i) (commit source))) /\
      leadTime = match (let '(visited, failed) :=
                          traverseCommits repository (preReleaseCommitOf sources i) (commit source) in
                        if failed then None else When <$> last visited) with
                 | Some lastCommitWhen => time.Sub (When (commit source)) lastCommitWhen
                 | None => 0
                 end).
    { rewrite (ByGoGit_eq _ _ _ _ _ Hi). intros [= <- <-]. split; [done|].
      destruct (traverseCommits _ _ _) as [visited failed].
      destruct failed; [done|]. by destruct (last visited). }
    destruct opt as [o|]; simpl; [destruct (IsLocalRepository o)|]; auto.
  - unfold traversal, getIsRestoredAndLeadTimeForChangesByLocalGit,
      getIsRestoredAndLeadTimeForChangesByGoGit.
    rewrite (index_None _ _ Hi). simpl.
    destruct opt as [o|]; [destruct (IsLocalRepository o)|]; done.
Qed.

(** ** The loop of [QueryReleases] *)

Lemma withoutTimeToRestore_insert (rs : list Release) (i : Z) (bound : Release)
    (d : time.Duration) :
  index rs i = Ok bound ->
  withoutTimeToRestore <$> <[Z.to_nat i := setTimeToRestore d bound]> rs =
  withoutTimeToRestore <$> rs.
Proof.
  intros [_ H]%index_Ok.
  rewrite list_fmap_insert. apply list_insert_id.
  rewrite list_lookup_fmap, H. done.
Qed.

Lemma classify_Ok (st : loopState) (isSuccess : bool) (releases' : list Release) (next : Z) :
  classify st = Ok (isSuccess, releases', next) ->
  isSuccess = negb (isRestored st) /\
  withoutTimeToRestore <$> releases' = withoutTimeToRestore <$> releases st.
Proof.
  unfold classify. destruct (isRestored st); simpl.
  - by intros [= <- <- <-].
  - destruct (0 <? len (releases st)); simpl; [|by intros [= <- <- <-]].
    destruct (index (releases st) (len (releases st) - 1)) as [newest|]; simpl; [|done].
    destruct (IsSuccess (Result newest)); simpl; [by intros [= <- <- <-]|].
    destruct (index (releases st) (nextSuccessReleaseIndex st)) as [bound|] eqn:Hb;
      simpl; [|done].
    intros [= <- <- <-]. split; [done|]. by apply withoutTimeToRestore_insert.
Qed.

Lemma QueryReleases_loop_classified (sources : list ReleaseSource) (opt : option Option)
    (repository : Repository) (rest : list ReleaseSource) :
  forall (i : nat) (st st' : loopState),
    QueryReleases_loop' sources opt repository i rest st = Ok st' ->
    withoutTimeToRestore <$> releases st' =
    ((withoutTimeToRestore <$> releases st) ++
     classified' sources opt repository (isRestored st) (emittedFrom opt i rest))%list.
Proof.
  induction rest as [|source rest IH]; intros i st st'.
  - simpl. intros [= <-]. by rewrite app_nil_r.
  - simpl. unfold QueryReleases_body at 1, passesFilters.
    destruct (shouldIgnore opt (tag source)); simpl; [apply IH|].
    destruct (isInTimeRange opt (When (commit source))); simpl; [|apply IH].
    destruct (classify st) as [[[isSuccess releases'] next]|] eqn:Hc; simpl; [|done].
    destruct (traversal' sources i opt repository) as [[signal leadTime]|] eqn:Ht;
      simpl; [|done].
    intros H. apply IH in H. rewrite H. simpl.
    apply classify_Ok in Hc as [-> Hc]. apply traversal_Ok in Ht as [-> ->].
    rewrite fmap_app, Hc. simpl. by rewrite <- app_assoc.
Qed.

Lemma QueryReleases_classified (sources : list ReleaseSource) (opt : option Option)
    (repository : Repository) (rs : list Release) :
  QueryReleases' sources repository opt = Ok rs ->
  withoutTimeToRestore <$> rs =
  classified' sources opt repository false (emittedSources opt sources).
Proof.
  unfold QueryReleases.
  destruct (QueryReleases_loop' _ _ _ _ _ _) as [st|] eqn:Hl; simpl; [|done].
  intros [= <-]. by apply QueryReleases_loop_classified in Hl.
Qed.

Lemma classified_lookup (sources : list ReleaseSource) (opt : option Option)
    (repository : Repository) (es : list (nat * ReleaseSource)) :
  forall (newer : bool) (k : nat) (r : Release),
    classified' sources opt repository newer es !! k = Some r ->
    exists i source,
      es !! k = Some (i, source) /\
      r = mkRelease (tag source) (When (commit source))
            (leadTimeOf' sources i opt repository)
            (mkReleaseResult
               (negb match k with
                     | O => newer
                     | S k' =>
                         match es !! k' with
                         | Some (j, _) => fixCommitFound' sources j opt repository
                         | None => false
                         end
                     end) None).
Proof.
  induction es as [|[i source] es IH]; intros newer k r; [done|].
  destruct k as [|k]; simpl.
  - intros [= <-]. by exists i, source.
  - intros H. apply IH in H as (i' & source' & Hk & ->).
    exists i', source'. split; [done|]. destruct k; done.
Qed.

Lemma classified_length (sources : list ReleaseSource) (opt : option Option)
    (repository : Repository) (es : list (nat * ReleaseSource)) (newer : bool) :
  length (classified' sources opt repository newer es) = length es.
Proof.
  revert newer. induction es as [|[i source] es IH]; intros newer; simpl; [done|].
  by rewrite IH.
Qed.

(** What [QueryReleases] returns, release by release. *)
Lemma QueryReleases_lookup (sources : list ReleaseSource) (opt : option Option)
    (repository : Repository) (rs : list Release) (k : nat) (r : Release) :
  QueryReleases' sources repository opt = Ok rs ->
  rs !! k = Some r ->
  exists i source,
    emittedSources opt sources !! k = Some (i, source) /\
    Tag r = tag source /\
    Date r = When (commit source) /\
    LeadTimeForChanges r = leadTimeOf' sources i opt repository /\
    IsSuccess (Result r) =
      negb match k with
           | O => false
           | S k' =>
               match emittedSources opt sources !! k' with
               | Some (j, _) => fixCommitFound' sources j opt repository
               | None => false
               end
           end.
Proof.
  intros Hq Hk. apply QueryReleases_classified in Hq.
  assert (Hk' : (withoutTimeToRestore <$> rs) !! k = Some (withoutTimeToRestore r))
    by (by rewrite list_lookup_fmap, Hk).
  rewrite Hq in Hk'. apply classified_lookup in Hk' as (i & source & He & Hr).
  exists i, source. split; [done|].
  destruct r as [t d l [s ttr]]. unfold withoutTimeToRestore in Hr. simpl in *.
  injection Hr as -> -> -> ->. 
  repeat split; try done.
Qed.


(** ** [QueryReleases] does not panic on its own *)

Lemma classify_total (st : loopState) :
  indexInvariant st ->
  exists isSuccess releases' next,
    classify st = Ok (isSuccess, releases', next) /\
    length releases' = length (releases st) /\
    0 <= next < len (releases st) + 1.
Proof.
  unfold indexInvariant, classify, len. intros Hinv.
  destruct (isRestored st) eqn:Hr; simpl.
  - destruct Hinv as [[_ ?]|Hinv]; [done|].
    eexists _, _, _. split; [done|]. split; [done|lia].
  - destruct (Z.ltb_spec 0 (Z.of_nat (length (releases st)))) as [Hpos|Hzero]; simpl.
    + destruct (lookup_lt_is_Some_2 (releases st) (Z.to_nat (Z.of_nat (length (releases st)) - 1)))
        as [newest Hn]; [lia|].
      assert (H0 : 0 <= Z.of_nat (length (releases st)) - 1) by lia.
      rewrite (index_lookup_Z _ _ _ H0 Hn). simpl.
      destruct (IsSuccess (Result newest)); simpl.
      * eexists _, _, _. split; [done|]. split; [done|lia].
      * destruct Hinv as [[Hnil _]|Hinv]; [rewrite Hnil in Hpos; simpl in Hpos; lia|].
        destruct (lookup_lt_is_Some_2 (releases st) (Z.to_nat (nextSuccessReleaseIndex st)))
          as [bound Hb]; [lia|].
        rewrite (index_lookup_Z _ _ _ (proj1 Hinv) Hb). simpl.
        eexists _, _, _. split; [done|]. rewrite length_insert. split; [done|lia].
    + eexists _, _, _. split; [done|]. split; [done|lia].
Qed.

Lemma QueryReleases_loop_total (sources : list ReleaseSource) (opt : option Option)
    (repository : Repository) (rest : list ReleaseSource) :
  forall (i : nat) (st : loopState),
    indexInvariant st ->
    (forall j, (i <= j < i + length rest)%nat ->
               exists x, traversal' sources j opt repository = Ok x) ->
    exists st', QueryReleases_loop' sources opt repository i rest st = Ok st'.
Proof.
  induction rest as [|source rest IH]; intros i st Hinv Htr; simpl.
  - by exists st.
  - assert (Hrest : forall j, (S i <= j < S i + length rest)%nat ->
                      exists x, traversal' sources j opt repository = Ok x).
    { intros j Hj. apply Htr. simpl. lia. }
    unfold QueryReleases_body at 1.
    destruct (shouldIgnore opt (tag source)); simpl; [by apply IH|].
    destruct (isInTimeRange opt (When (commit source))); simpl; [|by apply IH].
    destruct (classify_total st Hinv) as (isSuccess & releases' & next & -> & Hlen & Hnext).
    simpl.
    destruct (Htr i) as [[signal leadTime] ->]; [simpl; lia|]. simpl.
    apply IH; [|done]. right. simpl. unfold len in *.
    rewrite length_app, Hlen. simpl. lia.
Qed.

Lemma QueryReleases_total (sources : list ReleaseSource) (opt : option Option)
    (repository : Repository) :
  (forall j, (j < length sources)%nat ->
             exists x, traversal' sources j opt repository = Ok x) ->
  exists rs, QueryReleases' sources repository opt = Ok rs.
Proof.
  intros Htr. unfold QueryReleases.
  destruct (QueryReleases_loop_total sources opt repository sources 0
              (mkLoopState [] (-1) false)) as [st ->].
  - by left.
  - intros j Hj. apply Htr. lia.
  - by exists (releases st).
Qed.

(** X5. With the in-process traversal selected, by a nil option or by
    [IsLocalRepository = false], [QueryReleases] never panics: it returns a
    list of releases, whatever the release sources and the repository. *)
Lemma QueryReleases_total_GoGit (sources : list ReleaseSource) (opt : option Option)
    (repository : Repository) :
  usesLocalGit opt = false ->
  exists rs, QueryReleases' sources repository opt = Ok rs.
Proof.
  intros Hgo. apply QueryReleases_total. intros j Hj.
  destruct (lookup_lt_is_Some_2 sources j Hj) as [source Hs].
  unfold traversal. rewrite (ByGoGit_eq _ _ _ _ _ Hs).
  destruct opt as [o|]; simpl in *; [rewrite Hgo|]; eauto.
Qed.

End TraversalFacts.

(** ** The release classifier *)

Section Classifier.

Variable gitLog : sinceArg -> string -> option string.
Variable Repository : Type.
Variable traverseCommits : Repository -> option Commit -> Commit -> list Commit * bool.

Local Abbreviation QueryReleases' := (QueryReleases gitLog Repository traverseCommits).
Local Abbreviation lastCommitWhenOf' := (lastCommitWhenOf gitLog Repository traverseCommits).
Local Abbreviation QueryReleases_loop' := (QueryReleases_loop gitLog Repository traverseCommits).
Local Abbreviation traversal' := (traversal gitLog Repository traverseCommits).
Local Abbreviation fixCommitFound' := (fixCommitFound gitLog Repository traverseCommits).

Lemma emittedFrom_lookup (opt : option Option) (rest : list ReleaseSource) :
  forall (j k i : nat) (source : ReleaseSource),
    emittedFrom opt j rest !! k = Some (i, source) ->
    exists n, i = (j + n)%nat /\ rest !! n = Some source /\
              passesFilters opt source = true.
Proof.
  induction rest as [|s rest IH]; intros j k i source; [done|]. simpl.
  destruct (passesFilters opt s) eqn:Hp.
  - destruct k as [|k]; simpl.
    + intros [= <- <-]. exists 0%nat. split; [lia|done].
    + intros H. apply IH in H as (n & -> & Hn & ?). exists (S n). split; [lia|done].
  - intros H. apply IH in H as (n & -> & Hn & ?). exists (S n). split; [lia|done].
Qed.

Lemma emittedFrom_length (opt : option Option) (rest : list ReleaseSource) (j : nat) :
  (length (emittedFrom opt j rest) <= length rest)%nat.
Proof.
  revert j. induction rest as [|s rest IH]; intros j; simpl; [lia|].
  specialize (IH (S j)). destruct (passesFilters opt s); simpl; lia.
Qed.

(** The filters: no more releases than release sources, none of them with
    an ignored tag, each of them dated strictly inside the window. *)
Lemma QueryReleases_filters (sources : list ReleaseSource) (opt : option Option)
    (repository : Repository) (rs : list Release) :
  QueryReleases' sources repository opt = Ok rs ->
  (length rs <= length sources)%nat /\
  forall k r, rs !! k = Some r ->
    shouldIgnore opt (Tag r) = false /\ isInTimeRange opt (Date r) = true.
Proof.
  intros Hq. split.
  - apply QueryReleases_classified in Hq.
    apply (f_equal length) in Hq. rewrite length_fmap, classified_length in Hq.
    rewrite Hq. apply emittedFrom_length.
  - intros k r Hk.
    destruct (QueryReleases_lookup _ _ _ _ _ _ _ _ _ Hq Hk)
      as (i & source & He & -> & -> & _ & _).
    apply emittedFrom_lookup in He as (_ & _ & _ & Hp).
    unfold passesFilters in Hp. apply andb_true_iff in Hp as [Hp1 Hp2].
    by apply negb_true_iff in Hp1.
Qed.

Lemma QueryReleases_loop_traversals (sources : list ReleaseSource) (opt : option Option)
    (repository : Repository) (rest : list ReleaseSource) :
  forall (i : nat) (st st' : loopState),
    QueryReleases_loop' sources opt repository i rest st = Ok st' ->
    forall k j source,
      emittedFrom opt i rest !! k = Some (j, source) ->
      exists x, traversal' sources j opt repository = Ok x.
Proof.
  induction rest as [|s rest IH]; intros i st st'; [done|].
  simpl. unfold QueryReleases_body at 1, passesFilters.
  destruct (shouldIgnore opt (tag s)); simpl; [apply IH|].
  destruct (isInTimeRange opt (When (commit s))); simpl; [|apply IH].
  destruct (classify st) as [[[isSuccess releases'] next]|]; simpl; [|done].
  destruct (traversal' sources i opt repository) as [[signal leadTime]|] eqn:Ht;
    simpl; [|done].
  intros Hl k j source. destruct k as [|k]; simpl.
  - intros [= <- <-]. by exists (signal, leadTime).
  - by apply (IH _ _ _ Hl).
Qed.

(** C1. In the output of [QueryReleases] the newest release is a success,
    and every other release is a success exactly when the traversal that
    [QueryReleases] ran for the next-newer emitted release returned
    [isRestored = false], that is when it met nothing that matches the
    fix-commit pattern. *)
Theorem QueryReleases_isSuccess (sources : list ReleaseSource) (opt : option Option)
    (repository : Repository) (rs : list Release) (k : nat) (r : Release) :
  QueryReleases' sources repository opt = Ok rs ->
  rs !! k = Some r ->
  match k with
  | O => IsSuccess (Result r) = true
  | S k' =>
      exists i source leadTime,
        emittedSources opt sources !! k' = Some (i, source) /\
        traversal' sources i opt repository =
          Ok (fixCommitFound' sources i opt repository, leadTime) /\
        IsSuccess (Result r) = negb (fixCommitFound' sources i opt repository)
  end.
Proof.
  intros Hq Hk.
  destruct (QueryReleases_lookup _ _ _ _ _ _ _ _ _ Hq Hk) as (_ & _ & _ & _ & _ & _ & H).
  destruct k as [|k']; [done|].
  assert (Hlen : length rs = length (emittedSources opt sources)).
  { apply QueryReleases_classified in Hq. apply (f_equal length) in Hq.
    by rewrite length_fmap, classified_length in Hq. }
  destruct (lookup_lt_is_Some_2 (emittedSources opt sources) k') as [[i source] He].
  { apply lookup_lt_Some in Hk. lia. }
  rewrite He in H. exists i, source.
  unfold QueryReleases in Hq.
  destruct (QueryReleases_loop' _ _ _ _ _ _) as [st|] eqn:Hl; simpl in Hq; [|done].
  destruct (QueryReleases_loop_traversals _ _ _ _ _ _ _ Hl _ _ _ He) as [[signal leadTime] Ht].
  destruct (traversal_Ok _ _ _ _ _ _ _ _ _ Ht) as [-> _].
  by exists leadTime.
Qed.

(** C9. The first release [QueryReleases] returns, the newest one that
    passes the filters, is a success. *)
Theorem QueryReleases_first_isSuccess (sources : list ReleaseSource) (opt : option Option)
    (repository : Repository) (rs : list Release) (r : Release) :
  QueryReleases' sources repository opt = Ok rs ->
  head rs = Some r ->
  IsSuccess (Result r) = true.
Proof.
  intros Hq Hh. apply QueryReleases_classified in Hq.
  destruct rs as [|r0 rs]; [done|]. injection Hh as ->.
  unfold emittedSources in Hq.
  destruct (emittedFrom opt 0 sources) as [|[i source] es]; [done|].
  simpl in Hq. injection Hq as _ _ _ Hs _. exact Hs.
Qed.

End Classifier.

Lemma QueryReleases_isSuccess_witness :
  exists i source leadTime,
    emittedSources None fixSources !! 0%nat = Some (i, source) /\
    traversal (linearGitLog fixHistory) History linearTraverseCommits
              fixSources i None fixHistory =
      Ok (fixCommitFound (linearGitLog fixHistory) History linearTraverseCommits
                         fixSources i None fixHistory, leadTime) /\
    IsSuccess (Result (mkRelease "v1" (1000 * time.Second) 0 (mkReleaseResult false None)))
    = negb (fixCommitFound (linearGitLog fixHistory) History linearTraverseCommits
                           fixSources i None fixHistory).
Proof.
  apply (QueryReleases_isSuccess (linearGitLog fixHistory) History linearTraverseCommits
           fixSources None fixHistory
           [mkRelease "v2" (2000 * time.Second) 0 (mkReleaseResult true None);
            mkRelease "v1" (1000 * time.Second) 0 (mkReleaseResult false None)]
           1); reflexivity.
Defined.

Lemma QueryReleases_first_isSuccess_witness :
  IsSuccess (Result (mkRelease "v2" (2000 * time.Second) 0 (mkReleaseResult true None)))
  = true.
Proof.
  apply (QueryReleases_first_isSuccess (linearGitLog fixHistory) History
           linearTraverseCommits fixSources None fixHistory
           [mkRelease "v2" (2000 * time.Second) 0 (mkReleaseResult true None);
            mkRelease "v1" (1000 * time.Second) 0 (mkReleaseResult false None)]);
    reflexivity.
Defined.

(** ** Restore times written by [QueryReleases] *)

Lemma successes_app (rs : list Release) (r : Release) :
  successes (rs ++ [r])%list = (successes rs ++ [IsSuccess (Result r)])%list.
Proof. unfold successes. by rewrite fmap_app. Qed.

Lemma dates_app (rs : list Release) (r : Release) :
  dates (rs ++ [r])%list = (dates rs ++ [Date r])%list.
Proof. unfold dates. by rewrite fmap_app. Qed.

Lemma successes_insert (rs : list Release) (n : nat) (bound : Release) (d : time.Duration) :
  rs !! n = Some bound ->
  successes (<[n := setTimeToRestore d bound]> rs) = successes rs.
Proof.
  intros H. unfold successes. rewrite list_fmap_insert. apply list_insert_id.
  by rewrite list_lookup_fmap, H.
Qed.

Lemma dates_insert (rs : list Release) (n : nat) (bound : Release) (d : time.Duration) :
  rs !! n = Some bound ->
  dates (<[n := setTimeToRestore d bound]> rs) = dates rs.
Proof.
  intros H. unfold dates. rewrite list_fmap_insert. apply list_insert_id.
  by rewrite list_lookup_fmap, H.
Qed.

Lemma successes_length (rs : list Release) : length (successes rs) = length rs.
Proof. unfold successes. apply length_fmap. Qed.

Lemma successes_lookup (rs : list Release) (k : nat) (r : Release) :
  rs !! k = Some r -> successes rs !! k = Some (IsSuccess (Result r)).
Proof. intros H. unfold successes. by rewrite list_lookup_fmap, H. Qed.

Lemma dates_lookup (rs : list Release) (k : nat) (r : Release) :
  rs !! k = Some r -> dates rs !! k = Some (Date r).
Proof. intros H. unfold dates. by rewrite list_lookup_fmap, H. Qed.

Lemma closesStreak_bound (ss : list bool) (j m : nat) :
  closesStreak ss j m -> (S m < length ss)%nat.
Proof. intros (_ & _ & _ & H). by apply lookup_lt_Some in H. Qed.

(** Appending a classification keeps the closed runs, and closes the run
    that reaches the end when the new release is a success. *)
Lemma closesStreak_app (ss : list bool) (b : bool) (j m : nat) :
  closesStreak (ss ++ [b])%list j m <->
  closesStreak ss j m \/
  (S m = length ss /\ b = true /\ (j < m)%nat /\ ss !! j = Some true /\
   forall k, (j < k <= m)%nat -> ss !! k = Some false).
Proof.
  unfold closesStreak. split.
  - intros (Hjm & Hj & Hf & Hs).
    assert (HSm : (S m <= length ss)%nat).
    { apply lookup_lt_Some in Hs. rewrite length_app in Hs. simpl in Hs. lia. }
    assert (Hj' : ss !! j = Some true) by (rewrite lookup_app_l in Hj by lia; done).
    assert (Hf' : forall k, (j < k <= m)%nat -> ss !! k = Some false).
    { intros k Hk. specialize (Hf k Hk). rewrite lookup_app_l in Hf by lia. done. }
    destruct (decide (S m = length ss)) as [Heq|Hne].
    + right. rewrite lookup_app_r in Hs by lia.
      replace (S m - length ss)%nat with 0%nat in Hs by lia. simpl in Hs.
      injection Hs as ->. done.
    + left. rewrite lookup_app_l in Hs by lia. done.
  - intros [(Hjm & Hj & Hf & Hs)|(Heq & -> & Hjm & Hj & Hf)].
    + pose proof (lookup_lt_Some _ _ _ Hs) as Hlt.
      split; [done|]. split; [by rewrite lookup_app_l by lia|].
      split; [|by rewrite lookup_app_l by lia].
      intros k Hk. rewrite lookup_app_l by lia. by apply Hf.
    + split; [done|]. split; [by rewrite lookup_app_l by lia|].
      split.
      * intros k Hk. rewrite lookup_app_l by lia. by apply Hf.
      * rewrite lookup_app_r by lia. by replace (S m - length ss)%nat with 0%nat by lia.
Qed.

(** The restore-time part of [restoreInvariant], for a release appended
    without closing any run. *)
Lemma restore_times_append (rs : list Release) (new : Release) :
  (forall j r d,
     rs !! j = Some r ->
     (TimeToRestore (Result r) = Some d <->
      exists m oldest,
        closesStreak (successes rs) j m /\ dates rs !! m = Some oldest /\
        d = time.Sub (Date r) oldest)) ->
  TimeToRestore (Result new) = None ->
  (forall j m, closesStreak (successes rs ++ [IsSuccess (Result new)])%list j m ->
               closesStreak (successes rs) j m) ->
  forall j r d,
    (rs ++ [new])%list !! j = Some r ->
    (TimeToRestore (Result r) = Some d <->
     exists m oldest,
       closesStreak (successes (rs ++ [new])%list) j m /\
       dates (rs ++ [new])%list !! m = Some oldest /\
       d = time.Sub (Date r) oldest).
Proof.
  intros Hold Hnew Hno j r d Hj. rewrite successes_app, dates_app.
  assert (Hiff : forall m oldest,
    closesStreak (successes rs ++ [IsSuccess (Result new)])%list j m /\
    (dates rs ++ [Date new])%list !! m = Some oldest <->
    closesStreak (successes rs) j m /\ dates rs !! m = Some oldest).
  { intros m oldest. split.
    - intros [Hc Hd]. apply Hno in Hc. split; [done|].
      pose proof (closesStreak_bound _ _ _ Hc) as Hb. rewrite successes_length in Hb.
      rewrite lookup_app_l in Hd; [done|]. unfold dates. rewrite length_fmap. lia.
    - intros [Hc Hd]. split; [apply closesStreak_app; by left|].
      apply lookup_app_l_Some. done. }
  destruct (decide (j < length rs)%nat) as [Hlt|Hge].
  - rewrite lookup_app_l in Hj by done. rewrite (Hold j r d Hj).
    split; intros (m & oldest & Hc & Hd & ->); exists m, oldest.
    + destruct (proj2 (Hiff m oldest)) as [? ?]; done.
    + destruct (proj1 (Hiff m oldest)) as [? ?]; done.
  - assert (j = length rs) as ->.
    { apply lookup_lt_Some in Hj. rewrite length_app in Hj. simpl in Hj. lia. }
    rewrite lookup_app_r in Hj by lia. rewrite Nat.sub_diag in Hj. simpl in Hj.
    injection Hj as <-. rewrite Hnew. split; [done|].
    intros (m & oldest & Hc & _). apply Hno in Hc.
    pose proof (closesStreak_bound _ _ _ Hc) as Hb. rewrite successes_length in Hb.
    destruct Hc as (Hjm & _). lia.
Qed.

Lemma classify_restoreInvariant (st : loopState) (isSuccess : bool)
    (releases' : list Release) (next : Z) (new : Release) (signal : bool) :
  restoreInvariant st ->
  classify st = Ok (isSuccess, releases', next) ->
  IsSuccess (Result new) = isSuccess ->
  TimeToRestore (Result new) = None ->
  restoreInvariant (mkLoopState (releases' ++ [new]) next signal).
Proof.
  intros [HA HC] Hc Hs Hn. unfold classify in Hc.
  destruct (isRestored st) eqn:Hr; simpl in Hc.
  - (* the new release is a failure *)
    injection Hc as <- <- <-.
    destruct HA as [[_ ?]|(n & Hnext & Hsn & Hfail)]; [done|].
    pose proof (lookup_lt_Some _ _ _ Hsn) as Hlt. rewrite successes_length in Hlt.
    split; simpl.
    + right. exists n. split; [done|]. rewrite successes_app, Hs.
      split; [by apply lookup_app_l_Some|].
      intros k Hk. rewrite length_app in Hk. simpl in Hk.
      destruct (decide (k < length (releases st))%nat).
      * rewrite lookup_app_l by (rewrite successes_length; lia). apply Hfail. lia.
      * rewrite lookup_app_r by (rewrite successes_length; lia).
        rewrite successes_length. by replace (k - length (releases st))%nat with 0%nat by lia.
    + apply restore_times_append; [done|done|].
      intros j m Hcl. rewrite Hs in Hcl.
      apply closesStreak_app in Hcl as [?|(_ & ? & _)]; done.
  - (* the new release is a success *)
    destruct (Z.ltb_spec 0 (len (releases st))) as [Hpos|Hzero]; simpl in Hc.
    + destruct (index (releases st) (len (releases st) - 1)) as [newest|] eqn:Hnewest;
        simpl in Hc; [|done].
      apply index_Ok in Hnewest as [_ Hnewest]. unfold len in *.
      replace (Z.to_nat (Z.of_nat (length (releases st)) - 1))
        with (length (releases st) - 1)%nat in Hnewest by lia.
      destruct HA as [[Hnil _]|(n & Hnext & Hsn & Hfail)];
        [rewrite Hnil in Hpos; simpl in Hpos; lia|].
      pose proof (lookup_lt_Some _ _ _ Hsn) as Hlt. rewrite successes_length in Hlt.
      destruct (IsSuccess (Result newest)) eqn:Hsnew; simpl in Hc.
      * (* next to a success: nothing is written *)
        injection Hc as <- <- <-.
        assert (n = (length (releases st) - 1)%nat) as Hlast.
        { destruct (decide (n = (length (releases st) - 1)%nat)); [done|].
          specialize (Hfail (length (releases st) - 1)%nat ltac:(lia)).
          rewrite (successes_lookup _ _ _ Hnewest), Hsnew in Hfail. done. }
        split; simpl.
        -- right. exists (length (releases st)). split; [done|].
           rewrite successes_app, Hs.
           split.
           ++ rewrite lookup_app_r by (rewrite successes_length; lia).
              by rewrite successes_length, Nat.sub_diag.
           ++ intros k Hk. rewrite length_app in Hk. simpl in Hk. lia.
        -- apply restore_times_append; [done|done|].
           intros j m Hcl.
           apply closesStreak_app in Hcl as [?|(Hm & _ & Hjm & _ & Hf)]; [done|].
           rewrite successes_length in Hm.
           specialize (Hf m ltac:(lia)).
           replace m with (length (releases st) - 1)%nat in Hf by lia.
           rewrite (successes_lookup _ _ _ Hnewest), Hsnew in Hf. done.
      * (* next to a failure: the run is closed *)
        destruct (index (releases st) (nextSuccessReleaseIndex st)) as [bound|] eqn:Hbound;
          simpl in Hc; [|done].
        injection Hc as <- <- <-.
        apply index_Ok in Hbound as [_ Hbound]. rewrite Hnext, Nat2Z.id in *.
        assert (Hnlast : (n < length (releases st) - 1)%nat).
        { destruct (decide (n = (length (releases st) - 1)%nat)) as [->|]; [|lia].
          rewrite (successes_lookup _ _ _ Hnewest), Hsnew in Hsn. done. }
        set (d0 := time.Sub (Date bound) (Date newest)).
        split; simpl.
        -- right. exists (length (releases st)). split; [done|].
           rewrite successes_app, Hs, (successes_insert _ _ _ _ Hbound).
           rewrite length_app, length_insert. simpl.
           split.
           ++ rewrite lookup_app_r by (rewrite successes_length; lia).
              by rewrite successes_length, Nat.sub_diag.
           ++ intros k Hk. lia.
        -- intros j r d Hj.
           rewrite successes_app, dates_app, Hs,
             (successes_insert _ _ _ _ Hbound), (dates_insert _ _ _ _ Hbound).
           destruct (decide (j < length (releases st))%nat) as [Hjlt|Hjge].
           ++ rewrite lookup_app_l in Hj by (rewrite length_insert; lia).
              destruct (decide (j = n)) as [->|Hjn].
              ** rewrite list_lookup_insert_eq in Hj by lia. injection Hj as <-. simpl.
                 split.
                 --- intros [= <-]. exists (length (releases st) - 1)%nat, (Date newest).
                     split; [|split].
                     +++ apply closesStreak_app. right.
                         rewrite successes_length. split; [lia|]. split; [done|].
                         split; [lia|]. split; [done|].
                         intros k Hk. apply Hfail. lia.
                     +++ apply lookup_app_l_Some. by apply dates_lookup.
                     +++ done.
                 --- intros (m & oldest & Hcl & Hd & ->).
                     apply closesStreak_app in Hcl as [Hcl|(Hm & _)].
                     +++ pose proof (closesStreak_bound _ _ _ Hcl) as Hb.
                         rewrite successes_length in Hb.
                         destruct Hcl as (Hjm & _ & _ & HSm).
                         rewrite (Hfail (S m)) in HSm by lia. done.
                     +++ rewrite successes_length in Hm.
                         replace m with (length (releases st) - 1)%nat in Hd by lia.
                         rewrite lookup_app_l in Hd
                           by (unfold dates; rewrite length_fmap; lia).
                         rewrite (dates_lookup _ _ _ Hnewest) in Hd.
                         injection Hd as <-. done.
              ** rewrite list_lookup_insert_ne in Hj by done.
                 rewrite (HC j r d Hj).
                 split; intros (m & oldest & Hcl & Hd & ->); exists m, oldest.
                 --- pose proof (closesStreak_bound _ _ _ Hcl) as Hb.
                     rewrite successes_length in Hb.
                     split; [apply closesStreak_app; by left|].
                     split; [by apply lookup_app_l_Some|done].
                 --- apply closesStreak_app in Hcl as [Hcl|(Hm & _ & Hjm & Hsj & Hf)].
                     +++ pose proof (closesStreak_bound _ _ _ Hcl) as Hb.
                         rewrite successes_length in Hb.
                         split; [done|]. split; [|done].
                         rewrite lookup_app_l in Hd
                           by (unfold dates; rewrite length_fmap; lia). done.
                     +++ rewrite successes_length in Hm. exfalso.
                         destruct (decide (j < n)%nat).
                         *** rewrite (Hf n) in Hsn by lia. done.
                         *** rewrite (Hfail j) in Hsj by lia. done.
           ++ assert (j = length (releases st)) as ->.
              { apply lookup_lt_Some in Hj. rewrite length_app, length_insert in Hj.
                simpl in Hj. lia. }
              rewrite lookup_app_r in Hj by (rewrite length_insert; lia).
              rewrite length_insert, Nat.sub_diag in Hj. simpl in Hj.
              injection Hj as <-. rewrite Hn. split; [done|].
              intros (m & oldest & Hcl & _).
              pose proof (closesStreak_bound _ _ _ Hcl) as Hb.
              rewrite length_app, successes_length in Hb. simpl in Hb.
              destruct Hcl as (Hjm & _). lia.
    + (* the first release *)
      injection Hc as <- <- <-.
      assert (Hnil : releases st = []).
      { unfold len in Hzero. destruct (releases st); [done|simpl in Hzero; lia]. }
      rewrite Hnil in *. split; simpl.
      * right. exists 0%nat. unfold len. simpl. split; [done|].
        rewrite Hs. split; [done|]. intros k Hk. lia.
      * intros j r d Hj. destruct j as [|j]; [|done]. simpl in Hj. injection Hj as <-.
        rewrite Hn. split; [done|].
        intros (m & oldest & Hcl & _).
        pose proof (closesStreak_bound _ _ _ Hcl) as Hb. simpl in Hb.
        destruct Hcl as (Hjm & _). lia.
Qed.

Section RestoreTimes.

Variable gitLog : sinceArg -> string -> option string.
Variable Repository : Type.
Variable traverseCommits : Repository -> option Commit -> Commit -> list Commit * bool.

Lemma QueryReleases_loop_restoreInvariant (sources : list ReleaseSource)
    (opt : option Option) (repository : Repository) (rest : list ReleaseSource) :
  forall (i : nat) (st st' : loopState),
    restoreInvariant st ->
    QueryReleases_loop gitLog Repository traverseCommits sources opt repository i rest st
      = Ok st' ->
    restoreInvariant st'.
Proof.
  induction rest as [|source rest IH]; intros i st st' Hinv; simpl.
  - by intros [= <-].
  - unfold QueryReleases_body at 1.
    destruct (shouldIgnore opt (tag source)); simpl; [by apply IH|].
    destruct (isInTimeRange opt (When (commit source))); simpl; [|by apply IH].
    destruct (classify st) as [[[isSuccess releases'] next]|] eqn:Hc; simpl; [|done].
    destruct (traversal _ _ _ _ _ _ _) as [[signal leadTime]|]; simpl; [|done].
    apply IH. by eapply classify_restoreInvariant.
Qed.

(** The restore times in the output of [QueryReleases]: one sits on a
    release exactly when that release is a success, the releases next older
    than it are one or more failures, and an older success closes the run;
    its value is the date of the release minus the date of the oldest
    failure of the run. *)
Lemma QueryReleases_timeToRestore (sources : list ReleaseSource) (opt : option Option)
    (repository : Repository) (rs : list Release) (j : nat) (r : Release)
    (d : time.Duration) :
  QueryReleases gitLog Repository traverseCommits sources repository opt = Ok rs ->
  rs !! j = Some r ->
  (TimeToRestore (Result r) = Some d <->
   exists m oldest,
     closesStreak (successes rs) j m /\
     rs !! m = Some oldest /\
     d = time.Sub (Date r) (Date oldest)).
Proof.
  unfold QueryReleases.
  destruct (QueryReleases_loop _ _ _ _ _ _ _ _ _) as [st|] eqn:Hl; simpl; [|done].
  intros [= <-] Hj.
  apply QueryReleases_loop_restoreInvariant in Hl as [_ HC].
  - rewrite (HC j r d Hj).
    split; intros (m & oldest & Hcl & Hd & ->).
    + pose proof (closesStreak_bound _ _ _ Hcl) as Hb. rewrite successes_length in Hb.
      destruct (lookup_lt_is_Some_2 (releases st) m) as [o Ho]; [lia|].
      rewrite (dates_lookup _ _ _ Ho) in Hd. injection Hd as <-. by exists m, o.
    + exists m, (Date oldest). by rewrite (dates_lookup _ _ _ Hd).
  - split; [by left|]. intros ? ? ? H. done.
Qed.

(** No restore time is ever written on a failing release. *)
Lemma QueryReleases_timeToRestore_success (sources : list ReleaseSource)
    (opt : option Option) (repository : Repository) (rs : list Release) (j : nat)
    (r : Release) (d : time.Duration) :
  QueryReleases gitLog Repository traverseCommits sources repository opt = Ok rs ->
  rs !! j = Some r ->
  TimeToRestore (Result r) = Some d ->
  IsSuccess (Result r) = true.
Proof.
  intros Hq Hj Hd.
  apply (QueryReleases_timeToRestore _ _ _ _ _ _ _ Hq Hj) in Hd
    as (m & oldest & (_ & Hs & _) & _).
  rewrite (successes_lookup _ _ _ Hj) in Hs. by injection Hs.
Qed.

End RestoreTimes.

(** ** The failure policy of the native-tool traversal *)

(** C3, as the code has it. When the tool cannot be run, the local-git
    traversal returns no fix and a lead time of zero. When the tool ran and
    its output has no last line, an empty last line, or a last line whose
    digits do not fit an [int64], the lead time is zero, and the fix signal
    is whatever the scan of the lines found. *)
Theorem ByLocalGit_failure_policy (gitLog : sinceArg -> string -> option string)
    (sources : list ReleaseSource) (i : nat) (opt : option Option)
    (source : ReleaseSource) :
  sources !! i = Some source ->
  (gitLog (sinceOf sources i) (Hash (commit source)) = None ->
   getIsRestoredAndLeadTimeForChangesByLocalGit gitLog sources i opt = Ok (false, 0)) /\
  (forall lines,
     logLinesOf gitLog sources i = Some lines ->
     last lines = None \/ last lines = Some "" \/
     (exists lastLine digits,
        last lines = Some lastLine /\
        timestampSubmatch lastLine = Some digits /\
        strconv.ParseInt digits = None) ->
     getIsRestoredAndLeadTimeForChangesByLocalGit gitLog sources i opt =
     Ok (existsb (isFixedCommit opt) lines, 0)).
Proof.
  intros Hi. rewrite (ByLocalGit_eq _ _ _ _ _ Hi). unfold logLinesOf. rewrite Hi.
  split.
  - by intros ->.
  - intros lines Hl Hlast.
    destruct (gitLog _ _) as [output|]; [|done].
    simpl in Hl. injection Hl as Hl. simpl. rewrite Hl.
    destruct Hlast as [->|[->|(lastLine & digits & -> & Hm & Hp)]]; simpl; try done.
    rewrite Hm, Hp. by destruct (String.eqb lastLine "").
Qed.

Lemma ByLocalGit_failure_policy_witness :
  fixSources !! 0%nat = Some (mkReleaseSource "v2" fixCommit) /\
  getIsRestoredAndLeadTimeForChangesByLocalGit failingGitLog fixSources 0 None = Ok (false, 0).
Proof.
  split; [reflexivity|].
  apply (ByLocalGit_failure_policy failingGitLog fixSources 0 None
           (mkReleaseSource "v2" fixCommit)); reflexivity.
Defined.

(** C3, as stated, fails: the tool ran, the timestamp of its last line
    cannot be read, and yet the traversal reports a fix. *)
Lemma ByLocalGit_unreadable_timestamp_keeps_fix :
  ~ absorbsFailure overlongGitLog fixSources 0 None.
Proof.
  intros H.
  assert (Hfix : getIsRestoredAndLeadTimeForChangesByLocalGit overlongGitLog fixSources 0 None
                 = Ok (true, 0)) by (vm_compute; reflexivity).
  rewrite H in Hfix by (vm_compute; reflexivity). discriminate.
Qed.

(** ** The aggregates *)

(** C6. [getTimeToRestoreServices] returns the mean of the closed
    failure-to-success transitions, scanned from the oldest release to the
    newest, each counted as the date of the restoring success minus the date
    of the oldest failure of the run; the mean of no transition is 0. The sum
    is kept in an [int64]; whenever the sum of the transitions fits one, the
    result is the exact (truncated) mean. *)
Theorem getTimeToRestoreServices_mean (releases : list Release) :
  getTimeToRestoreServices releases = Ok (mean64 (closedTransitions releases)) /\
  (time.minDuration <= total (closedTransitions releases) <= time.maxDuration ->
   getTimeToRestoreServices releases = Ok (mean (closedTransitions releases))).
Proof.
  split; [apply getTimeToRestoreServices_mean64|].
  intros Hfit. rewrite getTimeToRestoreServices_mean64. unfold mean64, mean.
  by rewrite wrap64_small.
Qed.

Lemma getTimeToRestoreServices_mean_witness :
  getTimeToRestoreServices restoredReleases = Ok (mean [1000 * time.Second]).
Proof.
  apply (proj2 (getTimeToRestoreServices_mean restoredReleases)).
  vm_compute. split; discriminate.
Defined.

(** C4, at a window of length zero: the deployment frequency is NaN. *)
Theorem deploymentFrequency_zero_window (t : time.Time) (ignorePattern fixPattern : option Regexp)
    (local : bool) :
  PrimFloat.is_nan (deploymentFrequency (mkOption t t ignorePattern fixPattern local) []) = true.
Proof.
  unfold deploymentFrequency, daysCount, time.Sub. simpl Until. simpl Since.
  rewrite Z.sub_diag. vm_compute. reflexivity.
Qed.

(** A window shorter than a day that holds a release: the deployment
    frequency is infinite. *)
Lemma deploymentFrequency_half_day :
  deploymentFrequency (mkOption 0 (12 * time.Hour) None None false)
    [mkRelease "v1" time.Hour 0 (mkReleaseResult true None)]
  = PrimFloat.infinity.
Proof. vm_compute. reflexivity. Qed.

(** One release in a window of ten days. *)
Lemma deploymentFrequency_ten_days :
  deploymentFrequency (mkOption 0 (10 * 24 * time.Hour) None None false)
    [mkRelease "v1" time.Hour 0 (mkReleaseResult true None)]
  = (1 / 10)%float.
Proof. vm_compute. reflexivity. Qed.

(** ** The scenarios *)

Local Abbreviation run h := (QueryReleases (linearGitLog h) History linearTraverseCommits).

(** C2, on the scenario of the design document: [v2] fixed [v1], so [v1] is
    a failure and [v2] the success next newer than it, and yet no restore
    time is written on [v2], nor on any release. *)
Theorem QueryReleases_oldest_failure_unrestored :
  run threeHistory threeSources threeHistory None =
  Ok [mkRelease "v3" (30 * time.Second) 0 (mkReleaseResult true None);
      mkRelease "v2" (20 * time.Second) 0 (mkReleaseResult true None);
      mkRelease "v1" (10 * time.Second) 0 (mkReleaseResult false None)].
Proof. vm_compute. reflexivity. Qed.

(** C10, on the same scenario: the aggregate counts a restore of 10
    seconds, and the classifier recorded none. *)
Theorem getTimeToRestoreServices_counts_unrecorded :
  (run threeHistory threeSources threeHistory None ≫= getTimeToRestoreServices)
  = Ok (10 * time.Second) /\
  (recordedRestoreTimes <$> run threeHistory threeSources threeHistory None) = Ok [].
Proof. split; vm_compute; reflexivity. Qed.

(** C5, on a release dated exactly at [Since]: it is dropped. *)
Theorem QueryReleases_drops_release_at_since :
  When firstCommit = Since (windowOption false) /\
  run fixHistory fixSources fixHistory (Some (windowOption false)) =
  Ok [mkRelease "v2" (2000 * time.Second) 0 (mkReleaseResult true None)].
Proof. split; vm_compute; reflexivity. Qed.


(** C8, on a fix announced in the body of a commit message: the in-process
    traversal reads the whole message and finds it, the native-tool
    traversal reads the subject line and does not. *)
Theorem traversals_disagree_on_message_body :
  getIsRestoredAndLeadTimeForChangesByLocalGit
    (linearGitLog bodyFixHistory) bodyFixSources 0 None = Ok (false, 0) /\
  getIsRestoredAndLeadTimeForChangesByGoGit
    History linearTraverseCommits bodyFixSources 0 None bodyFixHistory = Ok (true, 0).
Proof. split; vm_compute; reflexivity. Qed.

(** The same fix, seen through [QueryReleases]: [v1] is a failure with the
    in-process traversal and a success with the native tool. *)
Lemma QueryReleases_depends_on_traversal :
  (successes <$> run bodyFixHistory bodyFixSources bodyFixHistory (Some (wideOption false)))
  = Ok [true; false] /\
  (successes <$> run bodyFixHistory bodyFixSources bodyFixHistory (Some (wideOption true)))
  = Ok [true; true].
Proof. split; vm_compute; reflexivity. Qed.

(** * Further properties of the classifier *)

Section Coverage.

Variable gitLog : sinceArg -> string -> option string.
Variable Repository : Type.
Variable traverseCommits : Repository -> option Commit -> Commit -> list Commit * bool.

Local Abbreviation QueryReleases' := (QueryReleases gitLog Repository traverseCommits).
Local Abbreviation QueryReleases_loop' := (QueryReleases_loop gitLog Repository traverseCommits).
Local Abbreviation traversal' := (traversal gitLog Repository traverseCommits).
Local Abbreviation classified' := (classified gitLog Repository traverseCommits).

Lemma emittedFrom_filter (opt : option Option) (rest : list ReleaseSource) (i : nat) :
  snd <$> emittedFrom opt i rest = List.filter (passesFilters opt) rest.
Proof.
  revert i. induction rest as [|s rest IH]; intros i; simpl; [done|].
  destruct (passesFilters opt s); simpl; by rewrite IH.
Qed.

Lemma classified_tags_dates (sources : list ReleaseSource) (opt : option Option)
    (repository : Repository) (es : list (nat * ReleaseSource)) (newer : bool) :
  (fun r => (Tag r, Date r)) <$> classified' sources opt repository newer es =
  (fun s => (tag s, When (commit s))) <$> (snd <$> es).
Proof.
  revert newer. induction es as [|[i s] es IH]; intros newer; simpl; [done|].
  by rewrite IH.
Qed.

(** X1. The releases [QueryReleases] returns are the release sources that
    pass the two filters, all of them and in the order of the sources, each
    with the tag and the committer time of its source. *)
Theorem QueryReleases_emits_filtered_sources (sources : list ReleaseSource)
    (opt : option Option) (repository : Repository) (rs : list Release) :
  QueryReleases' sources repository opt = Ok rs ->
  (fun r => (Tag r, Date r)) <$> rs =
  (fun s => (tag s, When (commit s))) <$>
    List.filter (fun s => negb (shouldIgnore opt (tag s)) &&
                          isInTimeRange opt (When (commit s))) sources.
Proof.
  intros Hq. apply QueryReleases_classified in Hq.
  apply (f_equal (fmap (fun r => (Tag r, Date r)))) in Hq.
  rewrite classified_tags_dates in Hq. unfold emittedSources in Hq.
  rewrite emittedFrom_filter, <- list_fmap_compose in Hq. exact Hq.
Qed.

(** X2. Every release [QueryReleases] returns under a non-nil option is
    dated strictly after [Since] and strictly before [Until], and its tag is
    not matched by the ignore pattern, if there is one. *)
Theorem QueryReleases_strict_window (sources : list ReleaseSource) (o : Option)
    (repository : Repository) (rs : list Release) (k : nat) (r : Release) :
  QueryReleases' sources repository (Some o) = Ok rs ->
  rs !! k = Some r ->
  Since o < Date r < Until o /\
  forall re, IgnorePattern o = Some re -> re (Tag r) = false.
Proof.
  intros Hq Hk.
  destruct (QueryReleases_lookup _ _ _ _ _ _ _ _ _ Hq Hk)
    as (i & source & He & -> & -> & _ & _).
  apply emittedFrom_lookup in He as (_ & _ & _ & Hp).
  unfold passesFilters in Hp. apply andb_true_iff in Hp as [Hp1 Hp2].
  apply negb_true_iff in Hp1. simpl in *.
  apply andb_true_iff in Hp2 as [Ha Hb].
  unfold time.After in Ha. unfold time.Before in Hb.
  apply Z.ltb_lt in Ha, Hb. split; [lia|].
  intros re Hre. by rewrite Hre in Hp1.
Qed.

Lemma QueryReleases_loop_nothing_passes (sources : list ReleaseSource)
    (opt : option Option) (repository : Repository) (rest : list ReleaseSource) :
  forall (i : nat) (st : loopState),
    (forall s, s ∈ rest -> passesFilters opt s = false) ->
    QueryReleases_loop' sources opt repository i rest st = Ok st.
Proof.
  induction rest as [|s rest IH]; intros i st Hno; simpl; [done|].
  assert (Hs : passesFilters opt s = false) by (apply Hno; left).
  unfold QueryReleases_body, passesFilters in *.
  destruct (shouldIgnore opt (tag s)); simpl in *.
  - apply IH. intros s' Hs'. apply Hno. by right.
  - rewrite Hs. simpl. apply IH. intros s' Hs'. apply Hno. by right.
Qed.

(** X3. With an empty window, [Until] not after [Since], [QueryReleases]
    returns no release, and runs no traversal: it cannot panic, whatever the
    repository and the native tool. *)
Theorem QueryReleases_empty_window (sources : list ReleaseSource) (o : Option)
    (repository : Repository) :
  Until o <= Since o ->
  QueryReleases' sources repository (Some o) = Ok [].
Proof.
  intros Hw. unfold QueryReleases.
  rewrite QueryReleases_loop_nothing_passes; [done|].
  intros s _. unfold passesFilters. apply andb_false_iff. right. simpl.
  unfold time.After, time.Before. apply andb_false_iff.
  destruct (Z.ltb_spec (Since o) (When (commit s))); [right|by left].
  apply Z.ltb_ge. lia.
Qed.

(** X4. When the ignore pattern matches the tag of every release source,
    [QueryReleases] returns no release. *)
Theorem QueryReleases_all_ignored (sources : list ReleaseSource) (o : Option)
    (re : Regexp) (repository : Repository) :
  IgnorePattern o = Some re ->
  (forall s, s ∈ sources -> re (tag s) = true) ->
  QueryReleases' sources repository (Some o) = Ok [].
Proof.
  intros Hre Hall. unfold QueryReleases.
  rewrite QueryReleases_loop_nothing_passes; [done|].
  intros s Hs. unfold passesFilters. simpl. rewrite Hre, (Hall s Hs). done.
Qed.


(** X7. The in-process traversal of a release source that exists never
    panics. It reports a fix exactly when the message of a visited commit
    matches the fix-commit pattern, also when the walk ends in an error; its
    lead time is the date of the release minus the committer time of the
    last visited commit, and zero when the walk failed or visited nothing. *)
Theorem ByGoGit_outcome (sources : list ReleaseSource) (i : nat) (opt : option Option)
    (repository : Repository) (source : ReleaseSource) (visited : list Commit)
    (failed : bool) :
  sources !! i = Some source ->
  traverseCommits repository (commit <$> sources !! S i) (commit source) = (visited, failed) ->
  exists signal leadTime,
    getIsRestoredAndLeadTimeForChangesByGoGit Repository traverseCommits
      sources i opt repository = Ok (signal, leadTime) /\
    (signal = true <-> exists c, c ∈ visited /\ isFixedCommit opt (Message c) = true) /\
    leadTime = match failed, last visited with
               | false, Some c => time.Sub (When (commit source)) (When c)
               | _, _ => 0
               end.
Proof.
  intros Hi Ht. rewrite (ByGoGit_eq _ _ _ _ _ _ _ Hi).
  unfold preReleaseCommitOf. rewrite Ht. simpl.
  eexists _, _. split; [done|]. split.
  - rewrite existsb_exists. split.
    + intros (c & Hc & Hm). exists c. split; [by apply list_elem_of_In|done].
    + intros (c & Hc & Hm). exists c. split; [by apply list_elem_of_In|done].
  - by destruct failed.
Qed.

(** The panics of the native-tool traversal. *)
Lemma ByLocalGit_panic_cases (sources : list ReleaseSource) (i : nat)
    (opt : option Option) :
  getIsRestoredAndLeadTimeForChangesByLocalGit gitLog sources i opt = Panic <->
  sources !! i = None \/
  exists lines lastLine,
    logLinesOf gitLog sources i = Some lines /\
    last lines = Some lastLine /\
    lastLine <> "" /\
    timestampSubmatch lastLine = None.
Proof.
  unfold logLinesOf. destruct (sources !! i) as [source|] eqn:Hi.
  - rewrite (ByLocalGit_eq _ _ _ _ _ Hi).
    destruct (gitLog _ _) as [output|]; simpl.
    + destruct (last (bufio.ScanLines output)) as [lastLine|] eqn:Hlast; simpl.
      * destruct (String.eqb_spec lastLine "") as [->|Hne].
        -- split; [done|]. intros [?|(lines & l & [= <-] & Hl & Hne & _)]; [done|].
           rewrite Hlast in Hl. by injection Hl as <-.
        -- destruct (timestampSubmatch lastLine) eqn:Hm.
           ++ split; [done|]. intros [?|(lines & l & [= <-] & Hl & _ & Hm')]; [done|].
              rewrite Hlast in Hl. injection Hl as <-. by rewrite Hm in Hm'.
           ++ split; [|done]. intros _. right. by exists (bufio.ScanLines output), lastLine.
      * split; [done|]. intros [?|(lines & l & [= <-] & Hl & _)]; [done|].
        by rewrite Hlast in Hl.
    + split; [done|]. intros [?|(lines & l & ? & _)]; done.
  - unfold getIsRestoredAndLeadTimeForChangesByLocalGit. rewrite (index_None _ _ Hi).
    split; [by left|done].
Qed.

(** X8. The native-tool traversal panics in exactly two cases: the index is
    not an index of [sources], or the tool ran and the last line of its
    output is not empty and does not start with non-digits, digits and a
    space. *)
Theorem ByLocalGit_panics_iff (sources : list ReleaseSource) (i : nat)
    (opt : option Option) :
  getIsRestoredAndLeadTimeForChangesByLocalGit gitLog sources i opt = Panic <->
  sources !! i = None \/
  exists lines lastLine,
    logLinesOf gitLog sources i = Some lines /\
    last lines = Some lastLine /\
    lastLine <> "" /\
    timestampSubmatch lastLine = None.
Proof. apply ByLocalGit_panic_cases. Qed.

Lemma QueryReleases_loop_panics_iff (sources : list ReleaseSource) (opt : option Option)
    (repository : Repository) (rest : list ReleaseSource) :
  forall (i : nat) (st : loopState),
    indexInvariant st ->
    QueryReleases_loop' sources opt repository i rest st = Panic <->
    exists k j s,
      emittedFrom opt i rest !! k = Some (j, s) /\
      traversal' sources j opt repository = Panic.
Proof.
  induction rest as [|source rest IH]; intros i st Hinv; simpl.
  - split; [done|]. by intros (k & j & s & ? & _).
  - unfold QueryReleases_body at 1, passesFilters.
    destruct (shouldIgnore opt (tag source)); simpl; [by apply IH|].
    destruct (isInTimeRange opt (When (commit source))); simpl; [|by apply IH].
    destruct (classify_total st Hinv) as (isSuccess & releases' & next & -> & Hlen & Hnext).
    simpl.
    destruct (traversal' sources i opt repository) as [[signal leadTime]|] eqn:Ht; simpl.
    + rewrite IH.
      * split.
        -- intros (k & j & s & Hk & Hp). by exists (S k), j, s.
        -- intros (k & j & s & Hk & Hp). destruct k as [|k]; simpl in Hk.
           ++ injection Hk as <- <-. by rewrite Ht in Hp.
           ++ by exists k, j, s.
      * right. simpl. unfold len in *. rewrite length_app, Hlen. simpl. lia.
    + split; [|done]. intros _. by exists 0%nat, i, source.
Qed.

(** X6. [QueryReleases] panics exactly when the native-tool traversal is
    selected and, for some release source that passes the filters, the last
    line the tool printed is not empty and does not start with non-digits,
    digits and a space. The indexing of [releases] in the loop never
    panics. *)
Theorem QueryReleases_panics_iff (sources : list ReleaseSource) (opt : option Option)
    (repository : Repository) :
  QueryReleases' sources repository opt = Panic <->
  usesLocalGit opt = true /\
  exists k i source lines lastLine,
    emittedSources opt sources !! k = Some (i, source) /\
    logLinesOf gitLog sources i = Some lines /\
    last lines = Some lastLine /\
    lastLine <> "" /\
    timestampSubmatch lastLine = None.
Proof.
  assert (Hloop : QueryReleases' sources repository opt = Panic <->
                  QueryReleases_loop' sources opt repository 0 sources
                    (mkLoopState [] (-1) false) = Panic).
  { unfold QueryReleases. by destruct (QueryReleases_loop' _ _ _ _ _ _). }
  rewrite Hloop, QueryReleases_loop_panics_iff by (by left).
  fold (emittedSources opt sources).
  split.
  - intros (k & i & source & He & Hp).
    pose proof (emittedFrom_lookup _ _ _ _ _ _ He) as (n & -> & Hn & _). simpl in *.
    assert (Hlocal : usesLocalGit opt = true /\
              getIsRestoredAndLeadTimeForChangesByLocalGit gitLog sources n opt = Panic).
    { unfold traversal in Hp. rewrite (ByGoGit_eq _ _ _ _ _ _ _ Hn) in Hp.
      destruct opt as [o|]; simpl; [|done]. by destruct (IsLocalRepository o). }
    destruct Hlocal as [Hl Hpanic]. split; [done|].
    apply ByLocalGit_panic_cases in Hpanic as [Hnone|(lines & lastLine & H)].
    + by rewrite Hn in Hnone.
    + by exists k, n, source, lines, lastLine.
  - intros (Hl & k & i & source & lines & lastLine & He & H).
    exists k, i, source. split; [done|].
    unfold traversal. destruct opt as [o|]; simpl in Hl; [|done]. rewrite Hl.
    apply ByLocalGit_panic_cases. right. by exists lines, lastLine.
Qed.

End Coverage.

Section CoverageRestore.

Variable gitLog : sinceArg -> string -> option string.
Variable Repository : Type.
Variable traverseCommits : Repository -> option Commit -> Commit -> list Commit * bool.

Local Abbreviation QueryReleases' := (QueryReleases gitLog Repository traverseCommits).

(** X12. In the output of [QueryReleases], a release [r] at index [j]
    carries a restore time [d] exactly when [r] is a success, the releases
    at [j+1 .. m] are failures for some [m > j], the release at [m+1] exists
    and is a success, and [d] is the date of [r] minus the date of the
    release at [m], the oldest failure of the run. *)
Theorem QueryReleases_restore_time_iff (sources : list ReleaseSource)
    (opt : option Option) (repository : Repository) (rs : list Release) (j : nat)
    (r : Release) (d : time.Duration) :
  QueryReleases' sources repository opt = Ok rs ->
  rs !! j = Some r ->
  (TimeToRestore (Result r) = Some d <->
   IsSuccess (Result r) = true /\
   exists m oldest closing,
     (j < m)%nat /\
     (forall k x, (j < k <= m)%nat -> rs !! k = Some x -> IsSuccess (Result x) = false) /\
     rs !! m = Some oldest /\
     rs !! S m = Some closing /\
     IsSuccess (Result closing) = true /\
     d = time.Sub (Date r) (Date oldest)).
Proof.
  intros Hq Hj. rewrite (QueryReleases_timeToRestore _ _ _ _ _ _ _ _ _ _ Hq Hj).
  split.
  - intros (m & oldest & (Hjm & Hs & Hf & Hc) & Hm & ->).
    rewrite (successes_lookup _ _ _ Hj) in Hs. injection Hs as Hs.
    split; [done|].
    destruct (lookup_lt_is_Some_2 rs (S m)) as [closing Hcl].
    { apply lookup_lt_Some in Hc. by rewrite successes_length in Hc. }
    rewrite (successes_lookup _ _ _ Hcl) in Hc. injection Hc as Hc.
    exists m, oldest, closing. repeat split; try done.
    intros k x Hk Hx. specialize (Hf k Hk).
    rewrite (successes_lookup _ _ _ Hx) in Hf. by injection Hf.
  - intros (Hs & m & oldest & closing & Hjm & Hf & Hm & Hcl & Hc & ->).
    exists m, oldest. split; [|done].
    split; [done|]. split; [by rewrite (successes_lookup _ _ _ Hj), Hs|].
    split; [|by rewrite (successes_lookup _ _ _ Hcl), Hc].
    intros k Hk.
    destruct (lookup_lt_is_Some_2 rs k) as [x Hx].
    { apply lookup_lt_Some in Hm. lia. }
    by rewrite (successes_lookup _ _ _ Hx), (Hf k x Hk Hx).
Qed.

Lemma emittedFrom_increasing (opt : option Option) (rest : list ReleaseSource) :
  forall (j k1 k2 i1 i2 : nat) (s1 s2 : ReleaseSource),
    (k1 < k2)%nat ->
    emittedFrom opt j rest !! k1 = Some (i1, s1) ->
    emittedFrom opt j rest !! k2 = Some (i2, s2) ->
    (i1 < i2)%nat.
Proof.
  induction rest as [|s rest IH]; intros j k1 k2 i1 i2 s1 s2 Hk; [done|]. simpl.
  destruct (passesFilters opt s); [|by apply IH].
  destruct k1 as [|k1], k2 as [|k2]; try lia; simpl.
  - intros [= <- <-] H2. apply emittedFrom_lookup in H2 as (n & -> & _). lia.
  - apply IH. lia.
Qed.

(** The dates of the output, against the order of the sources. *)
Lemma QueryReleases_dates_descend (sources : list ReleaseSource) (opt : option Option)
    (repository : Repository) (rs : list Release) :
  (forall i j a b, (i < j)%nat -> sources !! i = Some a -> sources !! j = Some b ->
                   When (commit b) <= When (commit a)) ->
  QueryReleases' sources repository opt = Ok rs ->
  forall j m newer older,
    (j < m)%nat -> rs !! j = Some newer -> rs !! m = Some older ->
    Date older <= Date newer.
Proof.
  intros Hsorted Hq j m newer older Hjm Hj Hm.
  destruct (QueryReleases_lookup _ _ _ _ _ _ _ _ _ Hq Hj) as (i1 & s1 & He1 & _ & -> & _).
  destruct (QueryReleases_lookup _ _ _ _ _ _ _ _ _ Hq Hm) as (i2 & s2 & He2 & _ & -> & _).
  pose proof (emittedFrom_increasing _ _ _ _ _ _ _ _ _ Hjm He1 He2) as Hlt.
  apply emittedFrom_lookup in He1 as (n1 & -> & Hn1 & _).
  apply emittedFrom_lookup in He2 as (n2 & -> & Hn2 & _).
  simpl in *. by apply (Hsorted n1 n2).
Qed.

(** X13. When the release sources are ordered newest first, so are the
    releases [QueryReleases] returns: dates never increase along the
    output. *)
Theorem QueryReleases_newest_first (sources : list ReleaseSource) (opt : option Option)
    (repository : Repository) (rs : list Release) (j m : nat) (newer older : Release) :
  (forall i j a b, (i < j)%nat -> sources !! i = Some a -> sources !! j = Some b ->
                   When (commit b) <= When (commit a)) ->
  QueryReleases' sources repository opt = Ok rs ->
  (j < m)%nat -> rs !! j = Some newer -> rs !! m = Some older ->
  Date older <= Date newer.
Proof. intros Hsorted Hq. by apply QueryReleases_dates_descend with sources opt repository. Qed.

(** X14. When the release sources are ordered newest first, no restore time
    [QueryReleases] writes is negative. *)
Theorem QueryReleases_restore_time_nonneg (sources : list ReleaseSource)
    (opt : option Option) (repository : Repository) (rs : list Release) (j : nat)
    (r : Release) (d : time.Duration) :
  (forall i j a b, (i < j)%nat -> sources !! i = Some a -> sources !! j = Some b ->
                   When (commit b) <= When (commit a)) ->
  QueryReleases' sources repository opt = Ok rs ->
  rs !! j = Some r ->
  TimeToRestore (Result r) = Some d ->
  0 <= d.
Proof.
  intros Hsorted Hq Hj Hd.
  apply (QueryReleases_timeToRestore _ _ _ _ _ _ _ _ _ _ Hq Hj) in Hd
    as (m & oldest & (Hjm & _) & Hm & ->).
  pose proof (QueryReleases_dates_descend _ _ _ _ Hsorted Hq _ _ _ _ Hjm Hj Hm) as Hle.
  unfold time.Sub, time.minDuration, time.maxDuration.
  destruct (Z.ltb_spec (Date r - Date oldest) (- 2 ^ 63)); [lia|].
  destruct (Z.ltb_spec (2 ^ 63 - 1) (Date r - Date oldest)); lia.
Qed.

End CoverageRestore.

(** * Further properties of the patterns and of the traversals *)

Lemma prefix_spec (p s : string) :
  String.prefix p s = true <-> exists b, s = p ++ b.
Proof.
  revert s. induction p as [|c p IH]; intros s; destruct s as [|c' s]; simpl.
  - split; [intros _; by exists ""|done].
  - split; [intros _; by exists (String c' s)|done].
  - split; [done|by intros [b ?]].
  - destruct (ascii_dec c c') as [->|Hne].
    + rewrite IH. split; intros [b Hb]; exists b; [by rewrite Hb|by injection Hb].
    + split; [done|]. intros [b Hb]. by injection Hb.
Qed.

Lemma Contains_spec (s substr : string) :
  strings.Contains s substr = true <-> exists a b, s = a ++ substr ++ b.
Proof.
  induction s as [|c s IH]; cbn [strings.Contains].
  - rewrite orb_false_r, prefix_spec. split.
    + intros [b Hb]. by exists "", b.
    + intros (a & b & H). destruct a; [by exists b|done].
  - rewrite orb_true_iff, prefix_spec, IH. split.
    + intros [[b Hb]|(a & b & Hab)]; [by exists "", b|].
      exists (String c a), b. by rewrite Hab.
    + intros (a & b & H). destruct a as [|c' a]; [left; by exists b|].
      right. exists a, b. by injection H.
Qed.

(** X11. Without a fix-commit pattern, under a nil option or an option
    whose pattern is nil, a commit message counts as a fix exactly when it
    contains the text "hotfix". *)
Theorem isFixedCommit_default (opt : option Option) (commitMessage : string) :
  opt = None \/ (exists o, opt = Some o /\ FixCommitPattern o = None) ->
  (isFixedCommit opt commitMessage = true <->
   exists a b, commitMessage = a ++ "hotfix" ++ b).
Proof.
  intros [->|(o & -> & Ho)]; simpl; [|rewrite Ho]; apply Contains_spec.
Qed.

Lemma isFixedCommit_default_witness :
  isFixedCommit None "apply hotfix for crash" = true <->
  exists a b, "apply hotfix for crash" = a ++ "hotfix" ++ b.
Proof. apply (isFixedCommit_default None "apply hotfix for crash"). by left. Defined.

Lemma isDigit_cases (c : ascii) :
  isDigit c = true ->
  c <> "+"%char /\ c <> "-"%char /\ c <> " "%char.
Proof.
  destruct c as [[] [] [] [] [] [] [] []]; vm_compute; intros H;
    try discriminate H; repeat split; discriminate.
Qed.

Lemma span_app (p : ascii -> bool) (a b : string) :
  Forall (fun c => p c = true) (list_ascii_of_string a) ->
  match b with EmptyString => True | String c _ => p c = false end ->
  span p (a ++ b) = (a, b).
Proof.
  intros Ha Hb. induction a as [|c a IH]; simpl in *.
  - destruct b as [|c b]; [done|]. simpl. by rewrite Hb.
  - inversion Ha as [|? ? Hc Ha']; subst. rewrite Hc, IH; done.
Qed.

Lemma allDigits_Forall (s : string) :
  allDigits s = true -> Forall (fun c => isDigit c = true) (list_ascii_of_string s).
Proof.
  induction s as [|c s IH]; simpl; [constructor|].
  intros [Hc Hs]%andb_true_iff. constructor; auto.
Qed.

(** A line of non-digits, digits and a space yields its digits. *)
Lemma timestampSubmatch_shape (junk digits rest : string) :
  junk <> "" ->
  Forall (fun c => isDigit c = false) (list_ascii_of_string junk) ->
  digits <> "" ->
  allDigits digits = true ->
  timestampSubmatch (junk ++ digits ++ " " ++ rest) = Some digits.
Proof.
  intros Hj Hjunk Hd Hdigits. unfold timestampSubmatch.
  rewrite (span_app _ junk (digits ++ " " ++ rest)).
  - rewrite (span_app _ digits (" " ++ rest)).
    + destruct junk; [done|]. destruct digits; [done|]. done.
    + by apply allDigits_Forall.
    + done.
  - eapply Forall_impl; [exact Hjunk|]. intros c Hc. simpl. by rewrite Hc.
  - destruct digits as [|c digits]; [done|]. simpl in *.
    apply andb_true_iff in Hdigits as [Hc _]. by rewrite Hc.
Qed.

Lemma ParseInt_digits (digits : string) :
  digits <> "" ->
  allDigits digits = true ->
  decimalValue 0 digits <= 2 ^ 63 - 1 ->
  strconv.ParseInt digits = Some (decimalValue 0 digits).
Proof.
  intros Hd Hdigits Hfit. destruct digits as [|c digits]; [done|].
  pose proof Hdigits as Hc. simpl in Hc. apply andb_true_iff in Hc as [Hc _].
  destruct (isDigit_cases c Hc) as (Hplus & Hminus & _).
  unfold strconv.ParseInt.
  assert (Hsplit : match String c digits with
                   | String "+" b => (false, b)
                   | String "-" b => (true, b)
                   | _ => (false, String c digits)
                   end = (false, String c digits)).
  { destruct c as [[] [] [] [] [] [] [] []]; try done. }
  rewrite Hsplit. rewrite Hdigits.
  destruct (Z.leb_spec (decimalValue 0 (String c digits)) (2 ^ 63 - 1)); [done|lia].
Qed.

Section CoverageTraversal.

Variable gitLog : sinceArg -> string -> option string.
Variable Repository : Type.
Variable traverseCommits : Repository -> option Commit -> Commit -> list Commit * bool.

(** On the seconds that [sec + unixToInternal] keeps inside an [int64],
    [time.Unix] is that many seconds after the epoch. *)
Lemma Unix_seconds (sec : Z) :
  - 2 ^ 63 - time.unixToInternal <= sec <= 2 ^ 63 - 1 - time.unixToInternal ->
  time.Unix sec = sec * time.Second.
Proof.
  intros Hsec. unfold time.Unix.
  rewrite wrap64_small by (unfold time.minDuration, time.maxDuration; lia).
  f_equal. lia.
Qed.

Lemma Sub_fits (t u : time.Time) :
  time.minDuration <= t - u <= time.maxDuration -> time.Sub t u = t - u.
Proof.
  intros Hfit. unfold time.Sub.
  destruct (Z.ltb_spec (t - u) time.minDuration); [lia|].
  destruct (Z.ltb_spec time.maxDuration (t - u)); [lia|done].
Qed.

(** X9. When the tool ran and the last line of its output is a run of
    non-digits, a run of digits whose value fits an [int64] and a space, as
    the lines of [--format="%ct %s"] are, the native-tool traversal does
    not panic and reports a fix exactly when a line matches the fix-commit
    pattern; its lead time is the time elapsed from the instant
    [time.Unix] makes of the digits to the date of the release, whenever
    that time fits a [Duration]. *)
Theorem ByLocalGit_reads_last_line (sources : list ReleaseSource) (i : nat)
    (opt : option Option) (source : ReleaseSource) (output junk digits rest : string) :
  sources !! i = Some source ->
  gitLog (sinceOf sources i) (Hash (commit source)) = Some output ->
  last (bufio.ScanLines output) = Some (junk ++ digits ++ " " ++ rest) ->
  junk <> "" ->
  Forall (fun c => isDigit c = false) (list_ascii_of_string junk) ->
  digits <> "" ->
  allDigits digits = true ->
  decimalValue 0 digits <= 2 ^ 63 - 1 ->
  exists leadTime,
    getIsRestoredAndLeadTimeForChangesByLocalGit gitLog sources i opt =
      Ok (existsb (isFixedCommit opt) (bufio.ScanLines output), leadTime) /\
    (time.minDuration <=
       When (commit source) - time.Unix (decimalValue 0 digits) <= time.maxDuration ->
     leadTime = When (commit source) - time.Unix (decimalValue 0 digits)).
Proof.
  intros Hi Hout Hlast Hj Hjunk Hd Hdigits Hfit.
  rewrite (ByLocalGit_eq _ _ _ _ _ Hi), Hout. simpl. rewrite Hlast. simpl.
  rewrite (timestampSubmatch_shape _ _ _ Hj Hjunk Hd Hdigits).
  rewrite (ParseInt_digits _ Hd Hdigits Hfit).
  destruct junk as [|c junk]; [done|]. simpl.
  eexists. split; [done|]. intros Hsub. by apply Sub_fits.
Qed.

End CoverageTraversal.

Section CoverageAgreement.

Variable gitLog : sinceArg -> string -> option string.
Variable Repository : Type.
Variable traverseCommits : Repository -> option Commit -> Commit -> list Commit * bool.

Lemma corresponding_existsb (opt : option Option) (visited : list Commit)
    (lines : list string) :
  Forall2 (fun c line => isFixedCommit opt line = isFixedCommit opt (Message c))
          visited lines ->
  existsb (isFixedCommit opt) lines =
  existsb (fun c => isFixedCommit opt (Message c)) visited.
Proof.
  induction 1 as [|c line visited lines Hc _ IH]; simpl; [done|]. by rewrite Hc, IH.
Qed.

Lemma corresponding_last {A B : Type} (R : A -> B -> Prop) (l : list A) (k : list B) :
  Forall2 R l k ->
  match last l, last k with
  | Some a, Some b => R a b
  | None, None => True
  | _, _ => False
  end.
Proof.
  induction 1 as [|a b l k Hab Hlk IH]; [done|].
  rewrite !last_cons. destruct (last l), (last k); done.
Qed.

(** X10. The two traversals return the same pair whenever the walk
    succeeds, the tool runs, and the lines of the tool correspond one to one
    and in order to the visited commits: the fix-commit pattern judges each
    line as it judges the message of its commit, and each line carries the
    committer time of its commit in seconds. *)
Theorem traversals_agree (sources : list ReleaseSource) (i : nat) (opt : option Option)
    (repository : Repository) (source : ReleaseSource) (visited : list Commit)
    (output : string) :
  sources !! i = Some source ->
  traverseCommits repository (commit <$> sources !! S i) (commit source) = (visited, false) ->
  gitLog (sinceOf sources i) (Hash (commit source)) = Some output ->
  Forall2 (fun c line =>
             isFixedCommit opt line = isFixedCommit opt (Message c) /\
             exists sec, timestampOf line = Some sec /\ When c = time.Unix sec)
          visited (bufio.ScanLines output) ->
  getIsRestoredAndLeadTimeForChangesByLocalGit gitLog sources i opt =
  getIsRestoredAndLeadTimeForChangesByGoGit Repository traverseCommits
    sources i opt repository.
Proof.
  intros Hi Ht Hout Hcorr.
  rewrite (ByLocalGit_eq _ _ _ _ _ Hi), (ByGoGit_eq _ _ _ _ _ _ _ Hi), Hout.
  unfold preReleaseCommitOf. rewrite Ht. simpl.
  rewrite <- (corresponding_existsb opt visited (bufio.ScanLines output))
    by (eapply Forall2_impl; [exact Hcorr|]; by intros c line [? _]).
  pose proof (corresponding_last _ _ _ Hcorr) as Hlast.
  destruct (last visited) as [c|], (last (bufio.ScanLines output)) as [lastLine|];
    simpl; try done.
  destruct Hlast as (_ & sec & Hsec & Hwhen).
  unfold timestampOf in Hsec.
  destruct (String.eqb_spec lastLine "") as [->|_]; [done|].
  destruct (timestampSubmatch lastLine) as [digits|]; [|done]. simpl in Hsec.
  by rewrite Hsec, Hwhen.
Qed.

End CoverageAgreement.

Lemma traversals_agree_witness :
  getIsRestoredAndLeadTimeForChangesByLocalGit (linearGitLog fixHistory) fixSources 0 None =
  getIsRestoredAndLeadTimeForChangesByGoGit History linearTraverseCommits
    fixSources 0 None fixHistory.
Proof.
  apply (traversals_agree (linearGitLog fixHistory) History linearTraverseCommits
           fixSources 0 None fixHistory (mkReleaseSource "v2" fixCommit) [fixCommit]
           (quote ++ "2000 hotfix: crash on start" ++ quote ++ newline));
    [reflexivity|reflexivity|reflexivity|].
  constructor; [|constructor].
  split; [reflexivity|]. exists 2000. split; reflexivity.
Defined.

(** * Further properties of the aggregates *)

Lemma restoreGaps_span (l : list Release) :
  forall (pending : option Release) (lo hi : Z),
    (forall i j a b, (i < j)%nat -> l !! i = Some a -> l !! j = Some b ->
                     Date a <= Date b) ->
    (forall k x, l !! k = Some x -> lo <= Date x <= hi) ->
    (forall f, pending = Some f ->
               lo <= Date f <= hi /\ forall k x, l !! k = Some x -> Date f <= Date x) ->
    lo <= hi ->
    hi - lo <= time.maxDuration ->
    0 <= total (restoreGaps pending l) <=
      hi - match pending with Some f => Date f | None => lo end.
Proof.
  induction l as [|r later IH]; intros pending lo hi Hasc Hrange Hpend Hlohi Hfit.
  - simpl. destruct pending as [f|]; [|lia].
    destruct (Hpend f eq_refl) as [? _]. lia.
  - assert (Hasc' : forall i j a b, (i < j)%nat -> later !! i = Some a ->
                      later !! j = Some b -> Date a <= Date b).
    { intros i j a b Hij Ha Hb. apply (Hasc (S i) (S j)); [lia|done|done]. }
    assert (Hrange' : forall k x, later !! k = Some x -> lo <= Date x <= hi).
    { intros k x Hx. by apply (Hrange (S k)). }
    assert (Hhead : forall k x, later !! k = Some x -> Date r <= Date x).
    { intros k x Hx. apply (Hasc 0%nat (S k)); [lia|done|done]. }
    pose proof (Hrange 0%nat r eq_refl) as Hr.
    simpl. destruct (IsSuccess (Result r)).
    + destruct pending as [f|].
      * destruct (Hpend f eq_refl) as [Hf Hfl].
        pose proof (Hfl 0%nat r eq_refl) as Hfr.
        assert (Hsub : time.Sub (Date r) (Date f) = Date r - Date f).
        { unfold time.Sub, time.minDuration, time.maxDuration in *.
          destruct (Z.ltb_spec (Date r - Date f) (- 2 ^ 63)); [lia|].
          destruct (Z.ltb_spec (2 ^ 63 - 1) (Date r - Date f)); lia. }
        assert (Hrest : 0 <= total (restoreGaps None later) <= hi - Date r).
        { apply (IH None (Date r) hi); [done| |done|lia|lia].
          intros k x Hx. specialize (Hhead k x Hx). specialize (Hrange' k x Hx). lia. }
        simpl. rewrite Hsub. lia.
      * apply (IH None lo hi); [done|done|done|lia|lia].
    + destruct pending as [f|].
      * destruct (Hpend f eq_refl) as [Hf Hfl].
        apply (IH (Some f) lo hi); [done|done| |lia|lia].
        intros f' [= <-]. split; [done|]. intros k x Hx. by apply (Hfl (S k)).
      * assert (Hrest : 0 <= total (restoreGaps (Some r) later) <= hi - Date r).
        { apply (IH (Some r) lo hi); [done|done| |lia|lia].
          intros f' [= <-]. split; [done|]. done. }
        lia.
Qed.

Lemma rev_lookup (rs : list Release) (i : nat) :
  (i < length rs)%nat -> rev rs !! i = rs !! (length rs - S i)%nat.
Proof.
  intros Hi. rewrite rev_alt. change (rev_append rs []) with (reverse rs).
  by apply reverse_lookup.
Qed.

(** X15. For releases ordered newest first whose dates span no more than
    the largest [Duration], [getTimeToRestoreServices] returns a duration
    between zero and the span from the oldest release to the newest. *)
Theorem getTimeToRestoreServices_within_span (rs : list Release)
    (newest oldest : Release) :
  (forall i j a b, (i < j)%nat -> rs !! i = Some a -> rs !! j = Some b ->
                   Date b <= Date a) ->
  head rs = Some newest ->
  last rs = Some oldest ->
  Date newest - Date oldest <= time.maxDuration ->
  exists d, getTimeToRestoreServices rs = Ok d /\ 0 <= d <= Date newest - Date oldest.
Proof.
  intros Hdesc Hhead Hlast Hfit.
  rewrite getTimeToRestoreServices_mean64. eexists. split; [done|].
  unfold closedTransitions.
  assert (Hnewest : rs !! 0%nat = Some newest) by (by destruct rs).
  assert (Holdest : rs !! pred (length rs) = Some oldest) by (by rewrite <- last_lookup).
  assert (Hlen : (0 < length rs)%nat) by (by apply lookup_lt_Some in Hnewest).
  assert (Hrange : forall k x, rs !! k = Some x -> Date oldest <= Date x <= Date newest).
  { intros k x Hx. pose proof (lookup_lt_Some _ _ _ Hx) as Hk. split.
    - destruct (decide (k = pred (length rs))) as [->|Hne].
      + rewrite Holdest in Hx. injection Hx as <-. lia.
      + apply (Hdesc k (pred (length rs))); [lia|done|done].
    - destruct (decide (k = 0%nat)) as [->|Hne].
      + rewrite Hnewest in Hx. injection Hx as <-. lia.
      + apply (Hdesc 0%nat k); [lia|done|done]. }
  pose proof (restoreGaps_span (rev rs) None (Date oldest) (Date newest)) as Hspan.
  simpl in Hspan. destruct Hspan as [H0 Hs].
  - intros i j a b Hij Ha Hb.
    pose proof (lookup_lt_Some _ _ _ Ha) as Hi. pose proof (lookup_lt_Some _ _ _ Hb) as Hj.
    rewrite length_rev in Hi, Hj.
    rewrite rev_lookup in Ha, Hb by done.
    apply (Hdesc (length rs - S j)%nat (length rs - S i)%nat); [lia|done|done].
  - intros k x Hx. pose proof (lookup_lt_Some _ _ _ Hx) as Hk. rewrite length_rev in Hk.
    rewrite rev_lookup in Hx by done. by apply (Hrange _ _ Hx).
  - done.
  - specialize (Hrange _ _ Hnewest). lia.
  - done.
  - pose proof (Hrange _ _ Hnewest) as Hno.
    unfold mean64. destruct (restoreGaps None (rev rs)) as [|g gs] eqn:Hg; [simpl; lia|].
    rewrite wrap64_small by (unfold time.minDuration, time.maxDuration in *; lia).
    assert (Hn : 0 < len (g :: gs)) by (unfold len; simpl; lia).
    rewrite Z.quot_div_nonneg by lia. split.
    + apply Z.div_pos; lia.
    + etrans; [|apply Hs]. apply Z.div_le_upper_bound; [lia|]. nia.
Qed.

Lemma restoreGaps_uniform (l : list Release) (pending : option Release) :
  (forall r, r ∈ l -> IsSuccess (Result r) = true) /\ pending = None \/
  (forall r, r ∈ l -> IsSuccess (Result r) = false) ->
  restoreGaps pending l = [].
Proof.
  revert pending. induction l as [|r l IH]; intros pending H; [done|]. simpl.
  destruct H as [[Hs ->]|Hf].
  - rewrite (Hs r) by left. apply IH. left. split; [|done]. intros x Hx. apply Hs. by right.
  - rewrite (Hf r) by left.
    destruct pending; apply IH; right; intros x Hx; apply Hf; by right.
Qed.

(** X16. When every release is a success, or every release is a failure,
    [getTimeToRestoreServices] returns zero. *)
Theorem getTimeToRestoreServices_uniform (rs : list Release) :
  (forall r, r ∈ rs -> IsSuccess (Result r) = true) \/
  (forall r, r ∈ rs -> IsSuccess (Result r) = false) ->
  getTimeToRestoreServices rs = Ok 0.
Proof.
  intros H. rewrite getTimeToRestoreServices_mean64. unfold closedTransitions.
  rewrite restoreGaps_uniform; [done|].
  destruct H as [Hs|Hf]; [left; split; [|done]|right]; intros r Hr.
  - apply Hs. apply list_elem_of_In. apply in_rev. by apply list_elem_of_In.
  - apply Hf. apply list_elem_of_In. apply in_rev. by apply list_elem_of_In.
Qed.

Lemma fold_leadTime (rs : list Release) (a : Z) :
  fold_left (fun sum r => time.add64 (LeadTimeForChanges r) sum) rs (time.wrap64 a) =
  time.wrap64 (a + total (LeadTimeForChanges <$> rs)).
Proof.
  revert a. induction rs as [|r rs IH]; intros a.
  - simpl. f_equal. lia.
  - rewrite fmap_cons. cbn [fold_left].
    change (total (LeadTimeForChanges r :: (LeadTimeForChanges <$> rs)))
      with (LeadTimeForChanges r + total (LeadTimeForChanges <$> rs)).
    unfold time.add64.
    replace (LeadTimeForChanges r + time.wrap64 a) with (time.wrap64 a + LeadTimeForChanges r)
      by lia.
    rewrite wrap64_add_l, IH. f_equal. lia.
Qed.

(** X17. [getMeanLeadTimeForChanges] returns the mean of the lead times of
    the releases, truncated toward zero, whenever their sum fits an [int64];
    the mean of no release is zero. *)
Theorem getMeanLeadTimeForChanges_mean (rs : list Release) :
  time.minDuration <= total (LeadTimeForChanges <$> rs) <= time.maxDuration ->
  getMeanLeadTimeForChanges rs = mean (LeadTimeForChanges <$> rs).
Proof.
  intros Hfit. unfold getMeanLeadTimeForChanges, mean.
  destruct rs as [|r rs]; [done|].
  change (len (r :: rs) =? 0) with false. cbv iota.
  change 0 with (time.wrap64 0) at 1. rewrite fold_leadTime.
  rewrite wrap64_small by (simpl in *; lia).
  unfold len. rewrite length_fmap. done.
Qed.

(** * Further properties of the deployment frequency *)

Lemma wholeDaysExact_spec (n : nat) :
  forall d0 d,
    wholeDaysExact n d0 = true ->
    d0 <= d < d0 + Z.of_nat n ->
    wholeDayCount d = d.
Proof.
  induction n as [|n IH]; intros d0 d Hall Hd; [lia|].
  cbn [wholeDaysExact] in Hall. apply andb_true_iff in Hall as [Hd0 Hrest].
  destruct (decide (d = d0)) as [->|Hne].
  - by apply Z.eqb_eq.
  - apply (IH (d0 + 1)); [done|lia].
Qed.

Lemma wholeDaysExact_twenty_years : wholeDaysExact (Z.to_nat 7306) 0 = true.
Proof. vm_compute. reflexivity. Qed.

(** X18. For a window of a whole number of days, up to 7305 days (twenty
    years), the divisor of the deployment frequency is exactly that number
    of days: the passage through [float64] loses nothing. *)
Theorem daysCount_whole_days (o : Option) (d : Z) :
  0 <= d <= 7305 ->
  Until o - Since o = d * (24 * time.Hour) ->
  daysCount o = d.
Proof.
  intros Hd Hw. unfold daysCount.
  assert (Hsub : time.Sub (Until o) (Since o) = d * (24 * time.Hour)).
  { unfold time.Sub. rewrite Hw.
    unfold time.minDuration, time.maxDuration, time.Hour, time.Minute, time.Second.
    destruct (Z.ltb_spec (d * (24 * (60 * (60 * 1000000000)))) (- 2 ^ 63)); [lia|].
    destruct (Z.ltb_spec (2 ^ 63 - 1) (d * (24 * (60 * (60 * 1000000000))))); [lia|done]. }
  rewrite Hsub. fold (wholeDayCount d).
  apply (wholeDaysExact_spec _ 0 d wholeDaysExact_twenty_years). lia.
Qed.

Lemma daysCount_whole_days_witness :
  daysCount (mkOption 0 (10 * 24 * time.Hour) None None false) = 10.
Proof.
  apply (daysCount_whole_days (mkOption 0 (10 * 24 * time.Hour) None None false) 10);
    [lia|reflexivity].
Defined.

(** * Instances *)

Lemma QueryReleases_emits_filtered_sources_witness :
  (fun r => (Tag r, Date r)) <$>
    [mkRelease "v2" (2000 * time.Second) 0 (mkReleaseResult true None)] =
  (fun s => (tag s, When (commit s))) <$>
    List.filter (fun s => negb (shouldIgnore (Some (windowOption false)) (tag s)) &&
                          isInTimeRange (Some (windowOption false)) (When (commit s)))
                fixSources.
Proof.
  apply (QueryReleases_emits_filtered_sources (linearGitLog fixHistory) History
           linearTraverseCommits fixSources (Some (windowOption false)) fixHistory).
  reflexivity.
Defined.

Lemma QueryReleases_strict_window_witness :
  Since (windowOption false) < 2000 * time.Second < Until (windowOption false) /\
  forall re, IgnorePattern (windowOption false) = Some re -> re "v2" = false.
Proof.
  apply (QueryReleases_strict_window (linearGitLog fixHistory) History
           linearTraverseCommits fixSources (windowOption false) fixHistory
           [mkRelease "v2" (2000 * time.Second) 0 (mkReleaseResult true None)] 0
           (mkRelease "v2" (2000 * time.Second) 0 (mkReleaseResult true None)));
    reflexivity.
Defined.

Lemma QueryReleases_empty_window_witness :
  QueryReleases overlongGitLog History linearTraverseCommits fixSources fixHistory
    (Some (mkOption (2000 * time.Second) (2000 * time.Second) None None true)) = Ok [].
Proof.
  apply (QueryReleases_empty_window overlongGitLog History linearTraverseCommits
           fixSources (mkOption (2000 * time.Second) (2000 * time.Second) None None true)
           fixHistory).
  simpl. lia.
Defined.

Lemma QueryReleases_all_ignored_witness :
  QueryReleases overlongGitLog History linearTraverseCommits fixSources fixHistory
    (Some ignoreAllOption) = Ok [].
Proof.
  apply (QueryReleases_all_ignored overlongGitLog History linearTraverseCommits
           fixSources ignoreAllOption (fun _ => true) fixHistory); [reflexivity|].
  intros s _. reflexivity.
Defined.

Lemma QueryReleases_total_GoGit_witness :
  exists rs, run fixHistory fixSources fixHistory (Some (wideOption false)) = Ok rs.
Proof.
  apply (QueryReleases_total_GoGit (linearGitLog fixHistory) History linearTraverseCommits
           fixSources (Some (wideOption false)) fixHistory).
  reflexivity.
Defined.

Lemma ByGoGit_outcome_witness :
  exists signal leadTime,
    getIsRestoredAndLeadTimeForChangesByGoGit History linearTraverseCommits
      rootedSources 0 None rootedHistory = Ok (signal, leadTime) /\
    (signal = true <->
     exists c, c ∈ [onlyReleaseCommit; rootCommit] /\ isFixedCommit None (Message c) = true) /\
    leadTime = match false, last [onlyReleaseCommit; rootCommit] with
               | false, Some c => time.Sub (When (commit (mkReleaseSource "v1" onlyReleaseCommit)))
                                           (When c)
               | _, _ => 0
               end.
Proof.
  apply (ByGoGit_outcome History linearTraverseCommits rootedSources 0 None rootedHistory
           (mkReleaseSource "v1" onlyReleaseCommit) [onlyReleaseCommit; rootCommit] false);
    reflexivity.
Defined.

Lemma ByLocalGit_reads_last_line_witness :
  exists leadTime,
    getIsRestoredAndLeadTimeForChangesByLocalGit (linearGitLog fixHistory) fixSources 0 None =
      Ok (existsb (isFixedCommit None)
            (bufio.ScanLines (quote ++ "2000 hotfix: crash on start" ++ quote ++ newline)),
          leadTime) /\
    (time.minDuration <=
       When (commit (mkReleaseSource "v2" fixCommit)) - time.Unix (decimalValue 0 "2000")
       <= time.maxDuration ->
     leadTime =
       When (commit (mkReleaseSource "v2" fixCommit)) - time.Unix (decimalValue 0 "2000")).
Proof.
  apply (ByLocalGit_reads_last_line (linearGitLog fixHistory) fixSources 0 None
           (mkReleaseSource "v2" fixCommit)
           (quote ++ "2000 hotfix: crash on start" ++ quote ++ newline)
           quote "2000" ("hotfix: crash on start" ++ quote));
    try reflexivity; try discriminate; repeat constructor.
Defined.

Lemma QueryReleases_restore_time_iff_witness :
  Some (10 * time.Second) = Some (10 * time.Second) <->
  true = true /\
  exists m oldest closing,
    (0 < m)%nat /\
    (forall k x, (0 < k <= m)%nat -> closedReleases !! k = Some x ->
                 IsSuccess (Result x) = false) /\
    closedReleases !! m = Some oldest /\
    closedReleases !! S m = Some closing /\
    IsSuccess (Result closing) = true /\
    10 * time.Second = time.Sub (30 * time.Second) (Date oldest).
Proof.
  apply (QueryReleases_restore_time_iff (linearGitLog closedHistory) History
           linearTraverseCommits closedSources None closedHistory closedReleases 0
           (mkRelease "v3" (30 * time.Second) 0
                      (mkReleaseResult true (Some (10 * time.Second))))
           (10 * time.Second)); reflexivity.
Defined.

Lemma closedSources_newest_first :
  forall i j a b, (i < j)%nat -> closedSources !! i = Some a -> closedSources !! j = Some b ->
                  When (commit b) <= When (commit a).
Proof.
  intros i j a b Hij Ha Hb.
  destruct i as [|[|[|i]]], j as [|[|[|j]]]; try lia; try discriminate;
    injection Ha as <-; injection Hb as <-; vm_compute; discriminate.
Qed.

Lemma QueryReleases_newest_first_witness :
  20 * time.Second <= 30 * time.Second.
Proof.
  apply (QueryReleases_newest_first (linearGitLog closedHistory) History
           linearTraverseCommits closedSources None closedHistory closedReleases 0 1
           (mkRelease "v3" (30 * time.Second) 0
                      (mkReleaseResult true (Some (10 * time.Second))))
           (mkRelease "v2" (20 * time.Second) 0 (mkReleaseResult false None))
           closedSources_newest_first); [reflexivity|lia|reflexivity|reflexivity].
Defined.

Lemma QueryReleases_restore_time_nonneg_witness :
  0 <= 10 * time.Second.
Proof.
  apply (QueryReleases_restore_time_nonneg (linearGitLog closedHistory) History
           linearTraverseCommits closedSources None closedHistory closedReleases 0
           (mkRelease "v3" (30 * time.Second) 0
                      (mkReleaseResult true (Some (10 * time.Second))))
           (10 * time.Second) closedSources_newest_first); reflexivity.
Defined.

Lemma closedReleases_newest_first :
  forall i j a b, (i < j)%nat -> closedReleases !! i = Some a -> closedReleases !! j = Some b ->
                  Date b <= Date a.
Proof.
  intros i j a b Hij Ha Hb.
  destruct i as [|[|[|i]]], j as [|[|[|j]]]; try lia; try discriminate;
    injection Ha as <-; injection Hb as <-; vm_compute; discriminate.
Qed.

Lemma getTimeToRestoreServices_within_span_witness :
  exists d, getTimeToRestoreServices closedReleases = Ok d /\
            0 <= d <= 30 * time.Second - 10 * time.Second.
Proof.
  apply (getTimeToRestoreServices_within_span closedReleases
           (mkRelease "v3" (30 * time.Second) 0
                      (mkReleaseResult true (Some (10 * time.Second))))
           (mkRelease "v1" (10 * time.Second) 0 (mkReleaseResult true None))
           closedReleases_newest_first); [reflexivity|reflexivity|].
  vm_compute. discriminate.
Defined.

Lemma getTimeToRestoreServices_uniform_witness :
  getTimeToRestoreServices
    [mkRelease "v2" (20 * time.Second) 0 (mkReleaseResult false None);
     mkRelease "v1" (10 * time.Second) 0 (mkReleaseResult false None)] = Ok 0.
Proof.
  apply (getTimeToRestoreServices_uniform
           [mkRelease "v2" (20 * time.Second) 0 (mkReleaseResult false None);
            mkRelease "v1" (10 * time.Second) 0 (mkReleaseResult false None)]).
  right. intros r Hr.
  apply elem_of_cons in Hr as [->|Hr]; [reflexivity|].
  apply elem_of_cons in Hr as [->|Hr]; [reflexivity|].
  by apply elem_of_nil in Hr.
Defined.

Lemma getMeanLeadTimeForChanges_mean_witness :
  getMeanLeadTimeForChanges
    [mkRelease "v2" (20 * time.Second) (7 * time.Second) (mkReleaseResult true None);
     mkRelease "v1" (10 * time.Second) (2 * time.Second) (mkReleaseResult true None)]
  = mean [7 * time.Second; 2 * time.Second].
Proof.
  apply (getMeanLeadTimeForChanges_mean
           [mkRelease "v2" (20 * time.Second) (7 * time.Second) (mkReleaseResult true None);
            mkRelease "v1" (10 * time.Second) (2 * time.Second) (mkReleaseResult true None)]).
  vm_compute. split; discriminate.
Defined.

(** * Lead times *)

Lemma newestFirst_oldest_last (ts : list time.Time) :
  newestFirst ts = true ->
  oldestTime ts = last ts /\
  forall newest oldest, head ts = Some newest -> last ts = Some oldest -> oldest <= newest.
Proof.
  induction ts as [|t ts IH]; [done|].
  destruct ts as [|t' ts].
  - intros _. split; [done|]. intros newest oldest [= <-] [= <-]. lia.
  - intros [Ht Hs]%andb_true_iff. apply Z.leb_le in Ht.
    destruct (IH Hs) as [IHo IHl].
    change (oldestTime (t :: t' :: ts)) with
      (match oldestTime (t' :: ts) with
       | Some oldest => Some (Z.min t oldest)
       | None => Some t
       end).
    rewrite IHo, (last_cons t (t' :: ts)).
    destruct (last (t' :: ts)) as [oldest|] eqn:Hlast.
    + specialize (IHl t' oldest eq_refl eq_refl). split.
      * f_equal. lia.
      * intros newest oldest' [= <-] [= <-]. lia.
    + by rewrite last_cons in Hlast; destruct (last ts).
Qed.

Section LeadTimes.

Variable gitLog : sinceArg -> string -> option string.
Variable Repository : Type.
Variable traverseCommits : Repository -> option Commit -> Commit -> list Commit * bool.

Local Abbreviation QueryReleases' := (QueryReleases gitLog Repository traverseCommits).
Local Abbreviation lastCommitWhenOf' := (lastCommitWhenOf gitLog Repository traverseCommits).
Local Abbreviation reportedTimes' := (reportedTimes gitLog Repository traverseCommits).
Local Abbreviation traversalFailed' := (traversalFailed gitLog Repository traverseCommits).

(** The instant [QueryReleases] measures from is the last one reported. *)
Lemma lastCommitWhenOf_reported (sources : list ReleaseSource) (i : nat)
    (opt : option Option) (repository : Repository) (ts : list time.Time) :
  reportedTimes' sources i opt repository = Some ts ->
  lastCommitWhenOf' sources i opt repository = last ts.
Proof.
  unfold reportedTimes, lastCommitWhenOf. destruct (usesLocalGit opt).
  - destruct (logLinesOf gitLog sources i) as [lines|]; simpl; [|done].
    intros Hm. apply mapM_Some in Hm.
    pose proof (corresponding_last _ _ _ Hm) as Hlast.
    destruct (last lines) as [lastLine|], (last ts) as [t|]; simpl; try done.
    unfold timestampOf in Hlast.
    destruct (timestampSubmatch lastLine) as [digits|]; simpl in *; done.
  - destruct (visitedOf _ _ _ _ _) as [visited failed].
    destruct failed; [done|]. intros [= <-]. by rewrite fmap_last.
Qed.

Lemma lastCommitWhenOf_failed (sources : list ReleaseSource) (i : nat)
    (opt : option Option) (repository : Repository) :
  traversalFailed' sources i opt repository = true ->
  lastCommitWhenOf' sources i opt repository = None.
Proof.
  unfold traversalFailed, lastCommitWhenOf. destruct (usesLocalGit opt).
  - by destruct (logLinesOf gitLog sources i).
  - destruct (visitedOf _ _ _ _ _) as [visited failed]. simpl. by intros ->.
Qed.


End LeadTimes.


(** On a history whose committer times do not follow the ancestry, the lead
    time is measured from the last commit visited, 500 seconds before the
    release, and not from the oldest one, 1500 seconds before it. *)
Lemma leadTime_measured_from_last_commit :
  QueryReleases (linearGitLog unorderedHistory) History linearTraverseCommits
    unorderedSources unorderedHistory None =
  Ok [mkRelease "v1" (2000 * time.Second) (500 * time.Second) (mkReleaseResult true None)] /\
  reportedTimes (linearGitLog unorderedHistory) History linearTraverseCommits
    unorderedSources 0 None unorderedHistory =
  Some [2000 * time.Second; 500 * time.Second; 1500 * time.Second] /\
  oldestTime [2000 * time.Second; 500 * time.Second; 1500 * time.Second] =
  Some (500 * time.Second).
Proof. repeat split; vm_compute; reflexivity. Qed.
